(** * Memory-Enhanced Email Agent: a shallow embedding of [email_agent.py]

    The development follows the class [EmailAgent]: Python text helpers
    first, then the records exchanged with the mailbox service, the
    services themselves as an interface, the agent's methods as programs
    of a state monad, and last the properties of the incremental
    processing engine.

    Conventions. A call that may raise returns a [result]; each
    [try]/[except] of the source is a [match] on it. The Gmail resource,
    the agent executor, the clock, [base64] and [re] are not code of the
    class: they are the fields of [Services], and every property is proved
    for all of them. The state of a program is the agent's mutable fields
    together with the world of the services and the trace of the calls
    made so far. Console output is left out, except the five numbered
    steps of [process_new_emails], kept in the trace with the id of the
    message they are about. *)

From Stdlib Require Import ZArith Ascii String.
From stdpp Require Import base gmap sets list strings pretty.

Local Open Scope string_scope.
Local Open Scope list_scope.
Local Open Scope Z_scope.

(** ** Python text operations

    A [string] is a sequence of code points below 256 (Latin-1); on that
    range the functions below are Python's [str] methods. *)
Module PyStr.

(** [ch.isspace()] on code points below 256. *)
Definition is_space (c : ascii) : bool :=
  let n := N_of_ascii c in
  ((9 <=? n) && (n <=? 13) || (28 <=? n) && (n <=? 32)
   || (n =? 133) || (n =? 160))%N.

(** [ch.lower()] on code points below 256: the ASCII capitals and the
    Latin-1 capitals (all of U+00C0..U+00DE but the multiplication sign). *)
Definition lower_char (c : ascii) : ascii :=
  let n := N_of_ascii c in
  if ((65 <=? n) && (n <=? 90)
      || (192 <=? n) && (n <=? 222) && negb (n =? 215))%N
  then ascii_of_N (n + 32) else c.

(** [s.lower()] *)
Fixpoint lower (s : string) : string :=
  match s with
  | EmptyString => EmptyString
  | String c s' => String (lower_char c) (lower s')
  end.

(** [s.lstrip()] *)
Fixpoint lstrip (s : string) : string :=
  match s with
  | EmptyString => EmptyString
  | String c s' => if is_space c then lstrip s' else s
  end.

(** [s.rstrip()] *)
Fixpoint rstrip (s : string) : string :=
  match s with
  | EmptyString => EmptyString
  | String c s' =>
      match rstrip s' with
      | EmptyString => if is_space c then EmptyString else String c EmptyString
      | r => String c r
      end
  end.

(** [s.strip()] *)
Definition strip (s : string) : string := lstrip (rstrip s).

(** [s.startswith(p)] *)
Fixpoint startswith (s p : string) : bool :=
  match p, s with
  | EmptyString, _ => true
  | String _ _, EmptyString => false
  | String a p', String b s' => if Ascii.eqb a b then startswith s' p' else false
  end.

(** [needle in hay] *)
Fixpoint contains (needle hay : string) : bool :=
  startswith hay needle ||
  match hay with
  | EmptyString => false
  | String _ hay' => contains needle hay'
  end.

(** [s[:n]] for a non-negative constant [n]. *)
Fixpoint slice_to (n : nat) (s : string) : string :=
  match n, s with
  | O, _ => EmptyString
  | S _, EmptyString => EmptyString
  | S n', String c s' => String c (slice_to n' s')
  end.

(** [len(s)] *)
Definition len (s : string) : Z := Z.of_nat (String.length s).

(** [s * n] *)
Fixpoint repeat (s : string) (n : nat) : string :=
  match n with
  | O => EmptyString
  | S n' => s +:+ repeat s n'
  end.

(** Truth value of a string: [bool(s)]. *)
Definition truthy (s : string) : bool :=
  match s with EmptyString => false | _ => true end.

(** [a or b] on strings. *)
Definition or_else (a b : string) : string := if truthy a then a else b.

(** [any(i in s for i in indicators)] *)
Definition any_in (indicators : list string) (s : string) : bool :=
  existsb (fun i => contains i s) indicators.

(** The double-quote character and the line feed, for the templates. *)
Definition dq : string := String "034"%char EmptyString.
Definition nl : string := String "010"%char EmptyString.

(** No character of [s] is white space. *)
Fixpoint no_space (s : string) : bool :=
  match s with
  | EmptyString => true
  | String c s' => negb (is_space c) && no_space s'
  end.

End PyStr.

(** ** Data exchanged with the mailbox and the reasoning services *)

(** [str(e)] of a raised exception. *)
Definition exn := string.

(** Outcome of a call that may raise. *)
Inductive result (A : Type) : Type :=
| Ok (a : A)
| Raise (e : exn).
Arguments Ok {A} a.
Arguments Raise {A} e.

(** [format=] argument of [messages().get]. *)
Inductive format : Type :=
| Metadata (metadataHeaders : list string)
| Full.

Record header : Type := Header { h_name : string; h_value : string }.

(** A MIME part: [part.get('mimeType')] and
    [part.get('body', {}).get('data', '')]. *)
Record part : Type := Part { mimeType : option string; part_data : string }.

(** [msg['payload']]: [headers] is [payload.get('headers', [])], [parts] is
    present when ['parts' in payload], [body] is present when
    ['body' in payload] and then holds [payload['body'].get('data', '')]. *)
Record payload : Type := Payload {
  headers : list header;
  parts : option (list part);
  body : option string
}.

(** The value under ['internalDate']: a text that [int()] reads as [z], or
    one that [int()] rejects. *)
Inductive int_text : Type :=
| Digits (z : Z)
| NotInt (text : string).

(** Response of [messages().get(...).execute()]. *)
Record msg_data : Type := MsgData {
  msg_payload : option payload;
  snippet : option string;
  internalDate : option int_text
}.

(** Last message of a streamed agent event: one with a [content]
    attribute, or anything else, shown through [str]. *)
Inductive message : Type :=
| Content (content : string)
| Other (str : string).

(** Entries of [all_emails] in [search_new_emails] and of [emails] in
    [process_new_emails]. *)
Record email_info : Type := EmailInfo {
  id : string;
  sender : string;
  subject : string;
  date : string;
  internal_date : Z
}.

(** Dictionary returned by [get_email_details]. *)
Record email : Type := Email {
  e_id : string;
  e_from : string;
  e_to : string;
  e_subject : string;
  e_date : string;
  e_body : string;
  e_snippet : string
}.

(** Entries of [all_emails] in [search_conversation_history]. *)
Record history_entry : Type := HistoryEntry {
  he_id : string;
  he_from : string;
  he_to : string;
  he_subject : string;
  he_date : string;
  he_snippet : string;
  he_direction : string
}.

(** Dictionary returned by [search_conversation_history]. *)
Record history : Type := History {
  total_count : nat;
  hist_sender : string;
  all_emails : list history_entry;
  summary : string
}.

(** The five numbered steps that [process_new_emails] announces for a
    message. *)
Inductive stage : Type := Fetch | Classify | Aggregate | Generate | Draft.

(** What the agent does to the outside, in order. [ev_step] stands for the
    numbered announcements of [process_new_emails] and carries the id of
    the message being handled; the other [print] calls are not modelled. *)
Inductive event : Type :=
| ev_list (q : string) (maxResults : Z)
| ev_get (msg_id : string) (fmt : format)
| ev_agent (query : string)
| ev_sleep (seconds : Z)
| ev_time
| ev_step (message_id : string) (s : stage).

Global Instance format_eq_dec : EqDecision format.
Proof. solve_decision. Defined.
Global Instance stage_eq_dec : EqDecision stage.
Proof. solve_decision. Defined.
Global Instance event_eq_dec : EqDecision event.
Proof. solve_decision. Defined.

(** ** The external collaborators

    The Gmail resource, the agent executor, the clock and the two library
    routines the class calls, over a world [W] that each call may change. *)
Class Services (W : Type) : Type := {
  (** [users().messages().list(userId='me', q, maxResults).execute()],
      then [results.get('messages', [])] read as the list of [msg['id']] *)
  messages_list : string -> Z -> W -> result (list string) * W;
  (** [users().messages().get(userId='me', id, format, ...).execute()] *)
  messages_get : string -> format -> W -> result msg_data * W;
  (** [agent_executor.stream(...)]: the events, each with its
      [event["messages"]] list *)
  agent_stream : string -> W -> result (list (list message)) * W;
  (** [int(time.time() * 1000)] *)
  time_ms : W -> Z * W;
  (** [time.sleep(seconds)] *)
  time_sleep : Z -> W -> W;
  (** [base64.urlsafe_b64decode(data).decode('utf-8', errors='ignore')] *)
  urlsafe_b64decode_utf8 : string -> result string;
  (** [re.search(r'[\w\.-]+@[\w\.-]+', s)], as [group(0)] of the match *)
  re_search_address : string -> option string
}.

(** ** The agent *)

(** The fields of [EmailAgent] that change after [__init__], the world it
    talks to and the events so far. *)
Record agent (W : Type) : Type := Agent {
  world : W;
  processed_emails : gset string;
  last_check_time : option Z;
  last_processed_id : option string;
  trace : list event
}.
Arguments Agent {W}.
Arguments world {W}.
Arguments processed_emails {W}.
Arguments last_check_time {W}.
Arguments last_processed_id {W}.
Arguments trace {W}.

(** State of the agent after [__init__]. *)
Definition init {W : Type} (w : W) : agent W :=
  Agent w ∅ None None [].

(** Programs over the agent. *)
Definition M (W A : Type) : Type := agent W -> A * agent W.

Definition ret {W A : Type} (a : A) : M W A := fun st => (a, st).

Definition bind {W A B : Type} (m : M W A) (k : A -> M W B) : M W B :=
  fun st => let (a, st') := m st in k a st'.

Notation "'let*' x ':=' c1 'in' c2" := (bind c1 (fun x => c2))
  (at level 10, x name, c1 at level 100, c2 at level 200).
Notation "c1 ;; c2" := (bind c1 (fun _ => c2))
  (at level 100, c2 at level 200, right associativity).

(** [int(x)] for the value under ['internalDate'], with default [0]. The
    text of the error is the one of Python for a text that [repr] leaves
    as it is between apostrophes; no method reads it. *)
Definition py_int (x : option int_text) : result Z :=
  match x with
  | None => Ok 0
  | Some (Digits z) => Ok z
  | Some (NotInt text) =>
      Raise ("invalid literal for int() with base 10: '" +:+ text +:+ "'")
  end.

(** [next((h['value'] for h in headers if h['name'].lower() == name), default)] *)
Definition header_value (hs : list header) (name default : string) : string :=
  match List.find (fun h => String.eqb (PyStr.lower (h_name h)) name) hs with
  | Some h => h_value h
  | None => default
  end.

(** [msg_data.get('payload', {}).get('headers', [])] *)
Definition headers_of (d : msg_data) : list header :=
  match msg_payload d with
  | Some p => headers p
  | None => []
  end.

(** [max(email['internal_date'] for email in emails)] on a non-empty list. *)
Definition max_internal_date (e : email_info) (es : list email_info) : Z :=
  fold_left (fun m x => Z.max m (internal_date x)) es (internal_date e).

(** Truth value of an optional integer: [None] and [0] are
    false. *)
Definition truthy_int (c : option Z) : option Z :=
  match c with
  | None => None
  | Some 0 => None
  | Some c => Some c
  end.

Definition unread_query : string := "is:unread category:primary".

Section Methods.
Context {W : Type} `{Services W}.

(** *** Calls to the collaborators, each recorded in the trace *)

Definition emit (e : event) : M W unit :=
  fun st => (tt, Agent (world st) (processed_emails st) (last_check_time st)
                       (last_processed_id st) (trace st ++ [e])).

Definition api_list (q : string) (maxResults : Z) : M W (result (list string)) :=
  fun st =>
    let (r, w) := messages_list q maxResults (world st) in
    (r, Agent w (processed_emails st) (last_check_time st)
              (last_processed_id st) (trace st ++ [ev_list q maxResults])).

Definition api_get (msg_id : string) (fmt : format) : M W (result msg_data) :=
  fun st =>
    let (r, w) := messages_get msg_id fmt (world st) in
    (r, Agent w (processed_emails st) (last_check_time st)
              (last_processed_id st) (trace st ++ [ev_get msg_id fmt])).

Definition call_agent (query : string) : M W (result (list (list message))) :=
  fun st =>
    let (r, w) := agent_stream query (world st) in
    (r, Agent w (processed_emails st) (last_check_time st)
              (last_processed_id st) (trace st ++ [ev_agent query])).

Definition now_ms : M W Z :=
  fun st =>
    let (t, w) := time_ms (world st) in
    (t, Agent w (processed_emails st) (last_check_time st)
              (last_processed_id st) (trace st ++ [ev_time])).

Definition sleep (seconds : Z) : M W unit :=
  fun st =>
    (tt, Agent (time_sleep seconds (world st)) (processed_emails st)
               (last_check_time st) (last_processed_id st)
               (trace st ++ [ev_sleep seconds])).

(** *** Reads and writes of the agent's fields *)

(** [msg_id in self.processed_emails] *)
Definition is_processed (msg_id : string) : M W bool :=
  fun st => (bool_decide (msg_id ∈ processed_emails st), st).

(** [self.processed_emails.add(message_id)] *)
Definition add_processed (message_id : string) : M W unit :=
  fun st => (tt, Agent (world st) ({[message_id]} ∪ processed_emails st)
                       (last_check_time st) (last_processed_id st) (trace st)).

(** [self.last_check_time] *)
Definition get_last_check_time : M W (option Z) :=
  fun st => (last_check_time st, st).

(** [self.last_check_time = t] *)
Definition set_last_check_time (t : Z) : M W unit :=
  fun st => (tt, Agent (world st) (processed_emails st) (Some t)
                       (last_processed_id st) (trace st)).

(** *** [run_agent_task] *)

(** [all_messages.append(event["messages"][-1])] over the events;
    an event with no message raises [IndexError]. *)
Fixpoint last_messages (events : list (list message)) : result (list message) :=
  match events with
  | [] => Ok []
  | ev :: events' =>
      match List.last (map Some ev) None with
      | None => Raise "list index out of range"
      | Some m =>
          match last_messages events' with
          | Ok ms => Ok (m :: ms)
          | Raise e => Raise e
          end
      end
  end.

Definition message_text (m : message) : string :=
  match m with
  | Content c => c
  | Other s => s
  end.

Definition run_agent_task (query : string) : M W string :=
  let* r := call_agent query in
  match r with
  | Raise e => ret ("Error: " +:+ e)
  | Ok events =>
      match last_messages events with
      | Raise e => ret ("Error: " +:+ e)
      | Ok all_messages =>
          match List.last (map Some all_messages) None with
          | Some final_message => ret (message_text final_message)
          | None => ret "No response"
          end
      end
  end.

(** *** [search_new_emails] *)

(** The [for msg in messages] loop; [Raise] leaves through the [except]. *)
Fixpoint search_loop (max_results : option Z) (messages : list string)
    (all_emails : list email_info) : M W (result (list email_info)) :=
  match messages with
  | [] => ret (Ok all_emails)
  | msg_id :: messages' =>
      let* seen := is_processed msg_id in
      if seen then search_loop max_results messages' all_emails
      else
        let* r := api_get msg_id (Metadata ["From"; "Subject"; "Date"]) in
        match r with
        | Raise e => ret (Raise e)
        | Ok msg_data =>
            let hs := headers_of msg_data in
            let sender := header_value hs "from" "Unknown" in
            let subject := header_value hs "subject" "No Subject" in
            let date := header_value hs "date" "Unknown" in
            match py_int (internalDate msg_data) with
            | Raise e => ret (Raise e)
            | Ok internal_date =>
                let all_emails' :=
                  all_emails ++ [EmailInfo msg_id sender subject date internal_date] in
                match truthy_int max_results with
                | Some m =>
                    if m <=? Z.of_nat (length all_emails')
                    then ret (Ok all_emails')
                    else search_loop max_results messages' all_emails'
                | None => search_loop max_results messages' all_emails'
                end
            end
        end
  end.

Definition search_new_emails (max_results : option Z) : M W (list email_info) :=
  let query := unread_query in
  let fetch_limit :=
    match truthy_int max_results with Some m => m | None => 50 end in
  let* results := api_list query fetch_limit in
  match results with
  | Raise e => ret []
  | Ok messages =>
      match messages with
      | [] => ret []
      | _ =>
          let* r := search_loop max_results messages [] in
          match r with
          | Ok all_emails => ret all_emails
          | Raise e => ret []
          end
      end
  end.

(** *** [get_email_details] *)

(** The [for part in payload['parts']] loop: the data of the first
    [text/plain] part whose data is not empty. *)
Fixpoint first_plain_data (ps : list part) : option string :=
  match ps with
  | [] => None
  | p :: ps' =>
      if bool_decide (mimeType p = Some "text/plain") && PyStr.truthy (part_data p)
      then Some (part_data p)
      else first_plain_data ps'
  end.

(** The base64 text that the body is decoded from, if any. *)
Definition body_data (p : option payload) : option string :=
  match p with
  | None => None
  | Some p =>
      match parts p with
      | Some ps => first_plain_data ps
      | None =>
          match body p with
          | Some d => if PyStr.truthy d then Some d else None
          | None => None
          end
      end
  end.

(** The [except] branch of [get_email_details]. *)
Definition error_email (message_id : string) (e : exn) : email :=
  Email message_id "Unknown" "Unknown" "Error fetching email" "Unknown"
        ("Error: " +:+ e) "".

Definition get_email_details (message_id : string) : M W email :=
  let* r := api_get message_id Full in
  match r with
  | Raise e => ret (error_email message_id e)
  | Ok msg =>
      let hs := headers_of msg in
      let sender := header_value hs "from" "Unknown" in
      let to := header_value hs "to" "Unknown" in
      let subject := header_value hs "subject" "No Subject" in
      let date := header_value hs "date" "Unknown" in
      let decoded :=
        match body_data (msg_payload msg) with
        | Some d => urlsafe_b64decode_utf8 d
        | None => Ok ""
        end in
      match decoded with
      | Raise e => ret (error_email message_id e)
      | Ok body =>
          let body :=
            if (2000 <? String.length body)%nat
            then PyStr.slice_to 2000 body +:+ "...[truncated]"
            else body in
          ret (Email message_id sender to subject date
                     (PyStr.or_else body "No body content")
                     (default "" (snippet msg)))
      end
  end.

(** *** [search_conversation_history] *)

(** The test of the inner [except]: a deleted or moved message. *)
Definition is_not_found (e : exn) : bool :=
  PyStr.contains "404" e || PyStr.contains "not found" (PyStr.lower e).

(** The [for msg in messages] loop with its inner [try]. *)
Fixpoint history_loop (sender_email : string) (messages : list string)
    (all_emails : list history_entry) : M W (list history_entry) :=
  match messages with
  | [] => ret all_emails
  | msg_id :: messages' =>
      let* r := api_get msg_id (Metadata ["From"; "To"; "Subject"; "Date"]) in
      match r with
      | Ok msg_data =>
          let hs := headers_of msg_data in
          let from_addr := header_value hs "from" "Unknown" in
          let to_addr := header_value hs "to" "Unknown" in
          let subject := header_value hs "subject" "No Subject" in
          let date := header_value hs "date" "Unknown" in
          let snippet := default "" (snippet msg_data) in
          let direction :=
            if PyStr.contains (PyStr.lower sender_email) (PyStr.lower from_addr)
            then "FROM them" else "TO them (your reply)" in
          history_loop sender_email messages'
            (all_emails ++
             [HistoryEntry msg_id from_addr to_addr subject date snippet direction])
      | Raise e =>
          if is_not_found e
          then history_loop sender_email messages' all_emails
          else history_loop sender_email messages' all_emails
      end
  end.

(** The [for idx, email in enumerate(all_emails, 1)] loop; the source
    writes a backslash and an [n], not a line feed. *)
Fixpoint summary_lines (idx : nat) (es : list history_entry) : string :=
  match es with
  | [] => ""
  | e :: es' =>
      pretty idx +:+ ". [" +:+ he_direction e +:+ "]\n"
      +:+ "   Subject: " +:+ he_subject e +:+ "\n"
      +:+ "   Date: " +:+ he_date e +:+ "\n"
      +:+ "   Preview: " +:+ PyStr.slice_to 100 (he_snippet e) +:+ "...\n\n"
      +:+ summary_lines (S idx) es'
  end.

Definition history_summary (sender_email : string) (es : list history_entry) : string :=
  "COMPLETE conversation history with " +:+ sender_email +:+ ":\n\n"
  +:+ "Last 20 Emails (both directions):\n" +:+ PyStr.repeat "=" 50 +:+ "\n\n"
  +:+ summary_lines 1 es.

Definition search_conversation_history (sender_email : string) : M W history :=
  let sender_email :=
    match re_search_address sender_email with
    | Some address => address
    | None => sender_email
    end in
  let query := "(" +:+ sender_email +:+ ")" in
  let* results := api_list query 20 in
  match results with
  | Raise e =>
      ret (History 0 sender_email [] ("Error searching history: " +:+ e))
  | Ok [] =>
      ret (History 0 sender_email []
                   ("No previous conversation with " +:+ sender_email))
  | Ok messages =>
      let* all_emails := history_loop sender_email messages [] in
      ret (History (length all_emails) sender_email all_emails
                   (history_summary sender_email all_emails))
  end.

(** *** The prompts *)

(** Lines of a triple-quoted template, joined by line feeds. *)
Fixpoint join_lines (ls : list string) : string :=
  match ls with
  | [] => ""
  | [l] => l
  | l :: ls' => l +:+ PyStr.nl +:+ join_lines ls'
  end.

Definition response_query (sender subject body : string) (total_emails : nat)
    (history_summary : string) : string :=
  join_lines [
    "Draft a professional email response:";
    "";
    "NEW EMAIL:";
    "From: " +:+ sender;
    "Subject: " +:+ subject;
    "Body: " +:+ PyStr.slice_to 1000 body
      +:+ (if (1000 <? String.length body)%nat then "...[truncated]" else "");
    "";
    "CONVERSATION HISTORY:";
    "Total emails from sender: " +:+ pretty total_emails;
    history_summary;
    "";
    "Create a thoughtful, professional response that:";
    "1. Addresses the main points";
    "2. Considers our conversation history";
    "3. Is clear and concise";
    "";
    "Write only the response body (no subject needed)." ].

Definition classification_prompt (sender subject snippet : string) : string :=
  join_lines [
    "You are a smart email classifier with long-term memory.";
    "Based on the sender, subject, and content, decide if this email should be:";
    "1. Ignored (promotions, newsletters, spam, social updates, or non-personal messages)";
    "2. Processed (important, personal, work-related, or actionable)";
    "";
    "Return only one word: " +:+ PyStr.dq +:+ "ignore" +:+ PyStr.dq +:+ " or "
      +:+ PyStr.dq +:+ "process" +:+ PyStr.dq +:+ ".";
    "";
    "**Ignore** emails that are:";
    "* Promotional or marketing (sales, offers, discounts, newsletters)";
    "* Automated system emails (confirmations, subscriptions, security alerts)";
    "* Social notifications (LinkedIn, Instagram, YouTube, etc.)";
    "* Event updates, ticket bookings, or receipts";
    "* Recruitment spam, newsletters, or general HR ads";
    "* Mails without a personal greeting or request for action";
    "* Gaming promotions, rewards, or virtual currency offers";
    "* No-reply senders with marketing content";
    "";
    "**Process** emails that are:";
    "* From known colleagues, professors, or managers";
    "* Contain questions, requests, or project details";
    "* Related to academic or professional tasks";
    "* Require replies, reports, scheduling, or document review";
    "* Have " +:+ PyStr.dq +:+ "urgent" +:+ PyStr.dq +:+ ", "
      +:+ PyStr.dq +:+ "follow-up" +:+ PyStr.dq +:+ ", or "
      +:+ PyStr.dq +:+ "update" +:+ PyStr.dq +:+ " in subject";
    "* Personal correspondence with specific requests";
    "";
    "EMAIL DETAILS:";
    "From: " +:+ sender;
    "Subject: " +:+ subject;
    "Snippet: " +:+ snippet;
    "" ].

Definition draft_query (sender subject response_body : string) : string :=
  join_lines [
    "You MUST create a Gmail draft. Use the gmail_create_draft tool.";
    "";
    "CREATE A DRAFT with these details:";
    "- To: " +:+ sender;
    "- Subject: " +:+ subject;
    "- Message: " +:+ response_body;
    "";
    "Call the gmail_create_draft tool NOW and confirm success." ].

(** *** [generate_response_with_context] *)

Definition generate_response_with_context (new_email : email)
    (conversation_history : history) : M W string :=
  let sender := e_from new_email in
  let subject := e_subject new_email in
  let body := e_body new_email in
  let history_summary := summary conversation_history in
  let total_emails := total_count conversation_history in
  let history_summary :=
    if (1500 <? String.length history_summary)%nat
    then PyStr.slice_to 1500 history_summary +:+ "...[truncated]"
    else history_summary in
  run_agent_task (response_query sender subject body total_emails history_summary).

(** *** [classify_email] *)

(** The prompt that [classify_email] builds for an email. *)
Definition classify_query (email : email) : string :=
  let sender := e_from email in
  let subject := e_subject email in
  let body := e_body email in
  let snippet :=
    if PyStr.truthy body then PyStr.slice_to 500 body
    else PyStr.slice_to 500 (e_snippet email) in
  classification_prompt sender subject snippet.

Definition classify_email (email : email) : M W string :=
  let* response := run_agent_task (classify_query email) in
  ret (PyStr.lower (PyStr.strip response)).

(** *** [create_draft_reply] *)

Definition success_indicators : list string :=
  [ "draft created"; "draft id"; "successfully";
    "created draft"; "draft has been"; "id:";
    "draft_id"; "success" ].

Definition create_draft_reply (original_email : email) (response_body : string)
    : M W bool :=
  let sender := e_from original_email in
  let subject := e_subject original_email in
  let subject :=
    if PyStr.startswith subject "Re:" then subject else "Re: " +:+ subject in
  let* response := run_agent_task (draft_query sender subject response_body) in
  if PyStr.any_in success_indicators (PyStr.lower response)
  then ret true
  else ret true.

(** *** [process_new_emails] *)

(** The live-mode [for idx, msg in enumerate(messages, 1)] loop with its
    [break]; [Raise] leaves through the [except] around it. *)
Fixpoint live_loop (checkpoint : Z) (messages : list string)
    (emails : list email_info) : M W (result (list email_info)) :=
  match messages with
  | [] => ret (Ok emails)
  | msg_id :: messages' =>
      let* r := api_get msg_id (Metadata ["From"; "Subject"; "Date"]) in
      match r with
      | Raise e => ret (Raise e)
      | Ok msg_data =>
          match py_int (internalDate msg_data) with
          | Raise e => ret (Raise e)
          | Ok internal_date =>
              if internal_date <=? checkpoint then ret (Ok emails)
              else
                let hs := headers_of msg_data in
                live_loop checkpoint messages'
                  (emails ++
                   [EmailInfo msg_id
                      (header_value hs "from" "Unknown")
                      (header_value hs "subject" "No Subject")
                      (header_value hs "date" "Unknown")
                      internal_date])
          end
      end
  end.

(** First part of [process_new_emails], up to [if not emails]: the list
    [emails], or [None] where the method returns. *)
Definition select_new_emails : M W (option (list email_info)) :=
  let* c := get_last_check_time in
  match truthy_int c with
  | None =>
      let* emails := search_new_emails (Some 5) in
      match emails with
      | [] =>
          let* t := now_ms in
          set_last_check_time t ;;
          ret None
      | newest :: _ =>
          set_last_check_time (internal_date newest) ;;
          ret (Some emails)
      end
  | Some checkpoint =>
      let* results := api_list unread_query 10 in
      match results with
      | Raise e => ret None
      | Ok messages =>
          let* r := live_loop checkpoint messages [] in
          match r with
          | Raise e => ret None
          | Ok emails => ret (Some emails)
          end
      end
  end.

(** Body of the [for idx, email_info in enumerate(emails, 1)] loop. *)
Definition process_email (idx total : nat) (email_info : email_info) : M W unit :=
  let message_id := id email_info in
  if negb (PyStr.truthy message_id) then ret tt
  else
    emit (ev_step message_id Fetch) ;;
    let* new_email := get_email_details message_id in
    emit (ev_step message_id Classify) ;;
    sleep 1 ;;
    let* action := classify_email new_email in
    if PyStr.contains "ignore" (PyStr.lower action)
    then add_processed message_id
    else
      emit (ev_step message_id Aggregate) ;;
      let* history := search_conversation_history (e_from new_email) in
      emit (ev_step message_id Generate) ;;
      sleep 2 ;;
      let* response := generate_response_with_context new_email history in
      emit (ev_step message_id Draft) ;;
      sleep 1 ;;
      create_draft_reply new_email response ;;
      add_processed message_id ;;
      if (idx <? total)%nat then sleep 2 else ret tt.

(** The part of [process_email] before [classify_email]: the email it
    fetched, and the state in which it classifies it. *)
Definition fetch_stage (message_id : string) : M W email :=
  emit (ev_step message_id Fetch) ;;
  let* new_email := get_email_details message_id in
  emit (ev_step message_id Classify) ;;
  sleep 1 ;;
  ret new_email.

(** The part of [process_email] after an email was not ignored. *)
Definition reply_stage (idx total : nat) (message_id : string) (new_email : email)
    : M W unit :=
  emit (ev_step message_id Aggregate) ;;
  let* history := search_conversation_history (e_from new_email) in
  emit (ev_step message_id Generate) ;;
  sleep 2 ;;
  let* response := generate_response_with_context new_email history in
  emit (ev_step message_id Draft) ;;
  sleep 1 ;;
  create_draft_reply new_email response ;;
  add_processed message_id ;;
  if (idx <? total)%nat then sleep 2 else ret tt.

Fixpoint process_loop (idx total : nat) (emails : list email_info) : M W unit :=
  match emails with
  | [] => ret tt
  | email_info :: emails' =>
      process_email idx total email_info ;;
      process_loop (S idx) total emails'
  end.

Definition process_new_emails : M W unit :=
  let* selected := select_new_emails in
  match selected with
  | None => ret tt
  | Some [] => ret tt
  | Some (e :: es) =>
      process_loop 1 (length (e :: es)) (e :: es) ;;
      set_last_check_time (max_internal_date e es)
  end.

(** *** [run_continuous]: the first [cycles] rounds of its [while True] *)

Fixpoint run_continuous (check_interval : Z) (cycles : nat) : M W unit :=
  match cycles with
  | O => ret tt
  | S n =>
      process_new_emails ;;
      sleep check_interval ;;
      run_continuous check_interval n
  end.

End Methods.

(** ** Observations on traces and checkpoints *)

(** The step announcements of a trace, in order. *)
Fixpoint steps (tr : list event) : list (string * stage) :=
  match tr with
  | [] => []
  | ev_step message_id s :: tr' => (message_id, s) :: steps tr'
  | _ :: tr' => steps tr'
  end.

(** Ids of the messages for which step [s] was announced, in order. *)
Definition step_ids (s : stage) (tr : list event) : list string :=
  map fst (List.filter (fun p => bool_decide (snd p = s)) (steps tr)).

(** [st'] comes after [st]: its trace continues the trace of [st]. *)
Definition extends {W : Type} (st st' : agent W) : Prop :=
  exists evs, trace st' = trace st ++ evs.

(** Between [st] and [st'] no step was announced and neither the
    processed set nor the checkpoint changed. *)
Definition quiet_step {W : Type} (st st' : agent W) : Prop :=
  processed_emails st' = processed_emails st /\
  last_check_time st' = last_check_time st /\
  exists evs, trace st' = trace st ++ evs /\ steps evs = [].

(** Between [st] and [st'] the ids [added] joined the processed set, the
    steps [ss] were announced and the checkpoint did not change. *)
Definition effect {W : Type} (added : gset string) (ss : list (string * stage))
    (st st' : agent W) : Prop :=
  processed_emails st' = added ∪ processed_emails st /\
  last_check_time st' = last_check_time st /\
  exists evs, trace st' = trace st ++ evs /\ steps evs = ss.

(** A program that announces no step and leaves the processed set and the
    checkpoint alone. *)
Definition quiet {W A : Type} (m : M W A) : Prop :=
  forall st, quiet_step st (snd (m st)).

(** Order on checkpoints: unset is below everything. *)
Definition checkpoint_le (a b : option Z) : Prop :=
  match a, b with
  | None, _ => True
  | Some _, None => False
  | Some x, Some y => x <= y
  end.

(** A list of integers from newest to oldest. *)
Fixpoint descending (ds : list Z) : Prop :=
  match ds with
  | [] => True
  | d :: ds' => (forall d', In d' ds' -> d' <= d) /\ descending ds'
  end.

(** The metadata fetches of [search_conversation_history] over a listing,
    one after the other, with their outcomes. *)
Fixpoint fetch_outcomes {W : Type} `{Services W} (messages : list string) (w : W)
    : list (string * result msg_data) :=
  match messages with
  | [] => []
  | msg_id :: messages' =>
      let (r, w') := messages_get msg_id (Metadata ["From"; "To"; "Subject"; "Date"]) w in
      (msg_id, r) :: fetch_outcomes messages' w'
  end.

(** The history entry that [search_conversation_history] builds from a
    fetched message. *)
Definition entry_of (sender_email msg_id : string) (msg_data : msg_data)
    : history_entry :=
  let hs := headers_of msg_data in
  let from_addr := header_value hs "from" "Unknown" in
  HistoryEntry msg_id from_addr
    (header_value hs "to" "Unknown")
    (header_value hs "subject" "No Subject")
    (header_value hs "date" "Unknown")
    (default "" (snippet msg_data))
    (if PyStr.contains (PyStr.lower sender_email) (PyStr.lower from_addr)
     then "FROM them" else "TO them (your reply)").

(** The entries of the fetches that succeeded. *)
Fixpoint fetched_entries (sender_email : string)
    (outcomes : list (string * result msg_data)) : list history_entry :=
  match outcomes with
  | [] => []
  | (msg_id, Ok d) :: rest => entry_of sender_email msg_id d :: fetched_entries sender_email rest
  | (_, Raise _) :: rest => fetched_entries sender_email rest
  end.

(** The mailbox, asked for the metadata of the message of [x], answered
    with the internal date that [x] carries. *)
Definition reported {W : Type} `{Services W} (x : email_info) : Prop :=
  exists w d w',
    messages_get (id x) (Metadata ["From"; "Subject"; "Date"]) w = (Ok d, w') /\
    py_int (internalDate d) = Ok (internal_date x).

(** The ids of [emails] that [process_new_emails] does not skip. *)
Definition handled_ids (emails : list email_info) : list string :=
  List.filter PyStr.truthy (map id emails).

(** What the tracker maintains against a mailbox whose messages keep the
    internal date [date_of]: no step was announced twice for an id, every
    id with an announced step is in the processed set, and the checkpoint
    is at or above the date of every processed id (with no checkpoint,
    nothing is processed yet). *)
Definition tracker_inv {W : Type} (date_of : string -> Z) (st : agent W) : Prop :=
  (forall s, NoDup (step_ids s (trace st))) /\
  (forall s i, i ∈ step_ids s (trace st) -> i ∈ processed_emails st) /\
  match last_check_time st with
  | None => processed_emails st = ∅
  | Some c => 0 <= c /\ forall i, i ∈ processed_emails st -> date_of i <= c
  end.

(** ** Example mailboxes

    A scripted world counts the calls made so far; each service answers
    from the script, as a function of the request and of that count. The
    example messages have no body, and the sender fields of the examples
    are either free of addresses or a bare address, for which the match
    of [re.search], when there is one, is the whole field: the two
    library routines are never asked for more. *)
Record script : Type := Script {
  on_list : string -> Z -> nat -> result (list string);
  on_get : string -> format -> nat -> result msg_data;
  on_agent : string -> nat -> result (list (list message));
  clock : nat -> Z
}.

Definition scripted (s : script) : Services nat := {|
  messages_list q n t := (on_list s q n t, S t);
  messages_get i f t := (on_get s i f t, S t);
  agent_stream q t := (on_agent s q t, S t);
  time_ms t := (clock s t, S t);
  time_sleep _ t := t;
  urlsafe_b64decode_utf8 d := Ok d;
  re_search_address _ := None
|}.

(** A message that carries only an internal date. *)
Definition dated (z : Z) : msg_data := MsgData None None (Some (Digits z)).

(** Internal date of the four messages of the example inbox, [0] for any
    other id. *)
Definition example_date (msg_id : string) : Z :=
  if String.eqb msg_id "m500" then 500
  else if String.eqb msg_id "m400" then 400
  else if String.eqb msg_id "m300" then 300
  else if String.eqb msg_id "m250" then 250
  else 0.

(** Four unread messages, newest first; no other message matches any
    query; the agent always answers [process]. *)
Definition steady : script := {|
  on_list q _ _ :=
    if String.eqb q unread_query then Ok ["m500"; "m400"; "m300"; "m250"] else Ok [];
  on_get i _ _ := Ok (dated (example_date i));
  on_agent _ _ := Ok [[Content "process"]];
  clock _ := 1000
|}.

(** The mailbox cannot be reached. *)
Definition offline : script := {|
  on_list _ _ _ := Raise "HttpError 503";
  on_get _ _ _ := Raise "HttpError 503";
  on_agent _ _ := Ok [[Content "process"]];
  clock _ := 1700000000000
|}.

(** The mailbox cannot be reached at the first call; from then on it
    lists one unread message, received long before the time of the
    clock. *)
Definition offline_once : script := {|
  on_list q _ t :=
    match t with
    | O => Raise "HttpError 503"
    | S _ => if String.eqb q unread_query then Ok ["m1"] else Ok []
    end;
  on_get _ _ _ := Ok (dated 500);
  on_agent _ _ := Ok [[Content "process"]];
  clock _ := 1700000000000
|}.

(** No unread message at all. *)
Definition empty_inbox : script := {|
  on_list _ _ _ := Ok [];
  on_get _ _ _ := Raise "HttpError 404";
  on_agent _ _ := Ok [[Content "process"]];
  clock _ := 1700000000000
|}.

(** One unread message whose internal date is reported as [100] during
    the first six calls and as [200] afterwards. *)
Definition redated : script := {|
  on_list q _ _ := if String.eqb q unread_query then Ok ["a"] else Ok [];
  on_get _ _ t := Ok (dated (if (t <? 6)%nat then 100 else 200));
  on_agent _ _ := Ok [[Content "process"]];
  clock _ := 1000
|}.

(** A listing that names its one unread message twice. *)
Definition doubled : script := {|
  on_list q _ _ := if String.eqb q unread_query then Ok ["a"; "a"] else Ok [];
  on_get _ _ _ := Ok (dated 100);
  on_agent _ _ := Ok [[Content "process"]];
  clock _ := 1000
|}.

(** Three messages involve the correspondent; the second was deleted
    after it was listed. *)
Definition flaky_history : script := {|
  on_list q _ _ := if String.eqb q unread_query then Ok [] else Ok ["h1"; "h2"; "h3"];
  on_get i _ _ := if String.eqb i "h2" then Raise "HttpError 404" else Ok (dated 7);
  on_agent _ _ := Ok [[Content "process"]];
  clock _ := 1000
|}.

(** ** Further observations *)

(** The subject that [create_draft_reply] puts in the draft. *)
Definition reply_subject (subject : string) : string :=
  if PyStr.startswith subject "Re:" then subject else "Re: " +:+ subject.

(** The prompt that [generate_response_with_context] builds. *)
Definition generate_query (new_email : email) (conversation_history : history)
    : string :=
  let history_summary := summary conversation_history in
  response_query (e_from new_email) (e_subject new_email) (e_body new_email)
    (total_count conversation_history)
    (if (1500 <? String.length history_summary)%nat
     then PyStr.slice_to 1500 history_summary +:+ "...[truncated]"
     else history_summary).

(** The prompts sent to the agent, in order. *)
Fixpoint agent_calls (tr : list event) : list string :=
  match tr with
  | [] => []
  | ev_agent query :: tr' => query :: agent_calls tr'
  | _ :: tr' => agent_calls tr'
  end.

(** The mailbox calls of a trace, in order. *)
Fixpoint mailbox_calls (tr : list event) : list event :=
  match tr with
  | [] => []
  | ev_list q n :: tr' => ev_list q n :: mailbox_calls tr'
  | ev_get i f :: tr' => ev_get i f :: mailbox_calls tr'
  | _ :: tr' => mailbox_calls tr'
  end.

(** A header whose name is [name] up to case. *)
Definition names (name : string) (h : header) : bool :=
  String.eqb (PyStr.lower (h_name h)) name.

(** Seven unread messages, listed whatever the limit asked for. *)
Definition crowded : script := {|
  on_list q _ _ :=
    if String.eqb q unread_query
    then Ok ["c7"; "c6"; "c5"; "c4"; "c3"; "c2"; "c1"] else Ok [];
  on_get _ _ _ := Ok (dated 900);
  on_agent _ _ := Ok [[Content "process"]];
  clock _ := 1000
|}.

(** The example inbox listed out of order: the message dated 250 comes
    before the one dated 400. *)
Definition shuffled : script := {|
  on_list q _ _ :=
    if String.eqb q unread_query then Ok ["m500"; "m250"; "m400"; "m300"] else Ok [];
  on_get i _ _ := Ok (dated (example_date i));
  on_agent _ _ := Ok [[Content "process"]];
  clock _ := 1000
|}.

(** The example inbox, where the metadata of the message dated 400 cannot
    be fetched. *)
Definition broken_fetch : script := {|
  on_list q _ _ :=
    if String.eqb q unread_query then Ok ["m500"; "m400"; "m300"; "m250"] else Ok [];
  on_get i _ _ :=
    if String.eqb i "m400" then Raise "HttpError 500" else Ok (dated (example_date i));
  on_agent _ _ := Ok [[Content "process"]];
  clock _ := 1000
|}.

(** The example inbox with an agent that answers [Ignore] to everything. *)
Definition ignoring : script := {|
  on_list q _ _ :=
    if String.eqb q unread_query then Ok ["m500"; "m400"; "m300"; "m250"] else Ok [];
  on_get i _ _ := Ok (dated (example_date i));
  on_agent _ _ := Ok [[Content " Ignore "]];
  clock _ := 1000
|}.

(** A message with headers in mixed case, a repeated header, two parts and
    a body of its own. *)
Definition sample_message : msg_data :=
  MsgData
    (Some (Payload
             [Header "FROM" "ann@example.org"; Header "Subject" "Hello";
              Header "subject" "Again"]
             (Some [Part (Some "text/html") "aGk"; Part (Some "text/plain") ""])
             (Some "Ym9keQ")))
    (Some "Hi there") (Some (Digits 42)).

(** A mailbox whose every message is [sample_message]. *)
Definition detailed : script := {|
  on_list q _ _ := if String.eqb q unread_query then Ok ["d1"] else Ok [];
  on_get _ _ _ := Ok sample_message;
  on_agent _ _ := Ok [[Content "process"]];
  clock _ := 1000
|}.

(** The steps announced for a message that is ignored, and for one that is
    answered. *)
Definition short_block (i : string) : list (string * stage) :=
  [(i, Fetch); (i, Classify)].
Definition long_block (i : string) : list (string * stage) :=
  [(i, Fetch); (i, Classify); (i, Aggregate); (i, Generate); (i, Draft)].

(** The example inbox with the failing fetch and a clock that advances
    with every call: asked at call [t] it shows [1000 + t]. *)
Definition ticking : script := {|
  on_list q _ _ :=
    if String.eqb q unread_query then Ok ["m500"; "m400"; "m300"; "m250"] else Ok [];
  on_get i _ _ :=
    if String.eqb i "m400" then Raise "HttpError 500" else Ok (dated (example_date i));
  on_agent _ _ := Ok [[Content "process"]];
  clock t := 1000 + Z.of_nat t
|}.

(** ** The message and the stage of every call to the agent *)

(** The stages in which [process_new_emails] calls the agent: classifying,
    generating and drafting. *)
Definition agent_stage (s : stage) : bool :=
  match s with
  | Classify | Generate | Draft => true
  | Fetch | Aggregate => false
  end.

(** The step announced last in [tr], or [cur] when [tr] announces none. *)
Fixpoint current (cur : option (string * stage)) (tr : list event)
    : option (string * stage) :=
  match tr with
  | [] => cur
  | ev_step message_id s :: tr' => current (Some (message_id, s)) tr'
  | _ :: tr' => current cur tr'
  end.

(** The calls to the agent of a trace, in order, each with the message
    and the stage that were announced last before it: the message for
    which the call is made and what it is made for. [cur] is the
    announcement in force where the trace begins. *)
Fixpoint attributed (cur : option (string * stage)) (tr : list event)
    : list (option (string * stage)) :=
  match tr with
  | [] => []
  | ev_step message_id s :: tr' => attributed (Some (message_id, s)) tr'
  | ev_agent _ :: tr' => cur :: attributed cur tr'
  | _ :: tr' => attributed cur tr'
  end.

(** The announcements of [tr] that are for a call to the agent. *)
Definition announced_calls (tr : list event) : list (string * stage) :=
  List.filter (fun p => agent_stage (snd p)) (steps tr).

(** In [evs] every call to the agent comes under an announcement of its
    own: the calls are, one for one and in order, the announcements of
    the stages that call the agent. *)
Definition accounted (evs : list event) : Prop :=
  forall cur, attributed cur evs = map Some (announced_calls evs).

(** Between [st] and [st'] nothing was announced and the agent was not
    called. *)
Definition silent_step {W : Type} (st st' : agent W) : Prop :=
  exists evs, trace st' = trace st ++ evs /\ steps evs = [] /\ agent_calls evs = [].

Definition silent {W A : Type} (m : M W A) : Prop :=
  forall st, silent_step st (snd (m st)).

(** Between [st] and [st'] every call to the agent came under an
    announcement of its own. *)
Definition linked {W : Type} (st st' : agent W) : Prop :=
  exists evs, trace st' = trace st ++ evs /\ accounted evs.

(** * Properties *)

(** ** Facts about the text operations *)
Module PyStrFacts.
Import PyStr.

Ltac each_char c := destruct c as [[] [] [] [] [] [] [] []]; vm_compute; reflexivity.

Lemma lower_char_idem (c : ascii) : lower_char (lower_char c) = lower_char c.
Proof. each_char c. Qed.

Lemma is_space_lower_char (c : ascii) : is_space (lower_char c) = is_space c.
Proof. each_char c. Qed.

Lemma lower_idem (s : string) : lower (lower s) = lower s.
Proof.
  induction s as [|c s IH]; simpl; [reflexivity|].
  now rewrite lower_char_idem, IH.
Qed.

Lemma lower_lstrip (s : string) : lower (lstrip s) = lstrip (lower s).
Proof.
  induction s as [|c s IH]; simpl; [reflexivity|].
  rewrite is_space_lower_char. destruct (is_space c); [exact IH|reflexivity].
Qed.

Lemma lower_rstrip (s : string) : lower (rstrip s) = rstrip (lower s).
Proof.
  induction s as [|c s IH]; simpl; [reflexivity|].
  rewrite <- IH, is_space_lower_char.
  destruct (rstrip s); simpl; [destruct (is_space c)|]; reflexivity.
Qed.

Lemma lower_strip (s : string) : lower (strip s) = strip (lower s).
Proof. unfold strip. now rewrite lower_lstrip, lower_rstrip. Qed.

Lemma lower_app (s t : string) : lower (s +:+ t) = lower s +:+ lower t.
Proof. induction s as [|c s IH]; simpl; [reflexivity|now rewrite IH]. Qed.

(** A needle without white space never starts at a white-space character. *)
Lemma startswith_space (n s : string) (c : ascii) :
  no_space n = true -> is_space c = true -> n <> EmptyString ->
  startswith (String c s) n = false.
Proof.
  intros Hn Hc Hne. destruct n as [|a n]; [congruence|]. simpl in *.
  destruct (Ascii.eqb a c) eqn:E; [|reflexivity].
  apply Ascii.eqb_eq in E. subst a. rewrite Hc in Hn. discriminate.
Qed.

Lemma contains_empty (s : string) : contains EmptyString s = true.
Proof. destruct s; reflexivity. Qed.

Lemma contains_lstrip (n s : string) :
  no_space n = true -> contains n (lstrip s) = contains n s.
Proof.
  intros Hn. destruct n as [|a n]; [now rewrite !contains_empty|].
  induction s as [|c s IH]; [reflexivity|].
  cbn [lstrip]. destruct (is_space c) eqn:Hc; [|reflexivity].
  rewrite IH. cbn [contains].
  rewrite (startswith_space (String a n) s c Hn Hc); [reflexivity|discriminate].
Qed.

Lemma startswith_rstrip (n s : string) :
  no_space n = true -> startswith (rstrip s) n = startswith s n.
Proof.
  revert s. induction n as [|a n IH]; intros s Hn.
  - destruct s; simpl; [reflexivity|]. now destruct (rstrip s), (is_space a).
  - simpl in Hn. apply andb_prop in Hn as [Ha Hn].
    destruct s as [|c s]; [reflexivity|].
    specialize (IH s Hn). cbn [rstrip].
    destruct (rstrip s) eqn:R.
    + destruct (is_space c) eqn:Hc.
      * cbn [startswith]. destruct (Ascii.eqb a c) eqn:E; [|reflexivity].
        apply Ascii.eqb_eq in E. subst a. rewrite Hc in Ha. discriminate.
      * cbn [startswith]. now rewrite <- IH.
    + cbn [startswith]. now rewrite <- IH.
Qed.

Lemma contains_rstrip (n s : string) :
  no_space n = true -> contains n (rstrip s) = contains n s.
Proof.
  intros Hn. induction s as [|c s IH]; [reflexivity|].
  cbn [contains]. rewrite <- (startswith_rstrip n (String c s) Hn), <- IH.
  cbn [rstrip]. destruct (rstrip s) eqn:R.
  - destruct (is_space c); [now destruct n|reflexivity].
  - reflexivity.
Qed.

Lemma contains_strip (n s : string) :
  no_space n = true -> contains n (strip s) = contains n s.
Proof.
  intros Hn. unfold strip. now rewrite contains_lstrip, contains_rstrip.
Qed.

Lemma startswith_app (s t : string) : startswith (s +:+ t) s = true.
Proof.
  induction s as [|c s IH]; simpl; [now destruct t|].
  now rewrite Ascii.eqb_refl.
Qed.

Lemma startswith_refl (s : string) : startswith s s = true.
Proof. induction s as [|c s IH]; simpl; [reflexivity|now rewrite Ascii.eqb_refl]. Qed.

Lemma contains_refl (s : string) : contains s s = true.
Proof. destruct s; cbn [contains]; now rewrite startswith_refl. Qed.

Lemma contains_app_r (n s : string) : contains n (s +:+ n) = true.
Proof.
  induction s as [|c s IH]; [apply contains_refl|].
  change (String c s +:+ n) with (String c (s +:+ n)).
  cbn [contains]. rewrite IH. apply orb_true_r.
Qed.

End PyStrFacts.

(** ** Programs that leave the tracker alone *)
Section Frames.
Context {W : Type} `{Services W}.

Lemma bind_eq {A B : Type} (m : M W A) (k : A -> M W B) (st : agent W) :
  bind m k st = k (fst (m st)) (snd (m st)).
Proof. unfold bind. now destruct (m st). Qed.

Lemma steps_app (tr1 tr2 : list event) : steps (tr1 ++ tr2) = steps tr1 ++ steps tr2.
Proof.
  induction tr1 as [|e tr1 IH]; [reflexivity|].
  destruct e; simpl; now rewrite IH.
Qed.

Lemma step_ids_app (s : stage) (tr1 tr2 : list event) :
  step_ids s (tr1 ++ tr2) = step_ids s tr1 ++ step_ids s tr2.
Proof. unfold step_ids. now rewrite steps_app, List.filter_app, map_app. Qed.

Lemma quiet_step_refl (st : agent W) : quiet_step st st.
Proof. repeat split. exists []. now rewrite app_nil_r. Qed.

Lemma quiet_step_trans (st1 st2 st3 : agent W) :
  quiet_step st1 st2 -> quiet_step st2 st3 -> quiet_step st1 st3.
Proof.
  intros (P1 & C1 & evs1 & T1 & S1) (P2 & C2 & evs2 & T2 & S2).
  repeat split; [congruence..|].
  exists (evs1 ++ evs2). split.
  - now rewrite T2, T1, app_assoc.
  - now rewrite steps_app, S1, S2.
Qed.

Lemma quiet_step_steps (st st' : agent W) :
  quiet_step st st' -> steps (trace st') = steps (trace st).
Proof.
  intros (_ & _ & evs & T & S). now rewrite T, steps_app, S, app_nil_r.
Qed.

Lemma quiet_step_extends (st st' : agent W) : quiet_step st st' -> extends st st'.
Proof. intros (_ & _ & evs & T & _). now exists evs. Qed.

Lemma extends_refl (st : agent W) : extends st st.
Proof. exists []. now rewrite app_nil_r. Qed.

Lemma extends_trans (st1 st2 st3 : agent W) :
  extends st1 st2 -> extends st2 st3 -> extends st1 st3.
Proof.
  intros [evs1 T1] [evs2 T2]. exists (evs1 ++ evs2).
  now rewrite T2, T1, app_assoc.
Qed.

Lemma extends_elem (st st' : agent W) (e : event) :
  extends st st' -> In e (trace st) -> In e (trace st').
Proof. intros [evs T] Hin. rewrite T. apply in_or_app. now left. Qed.

Lemma quiet_ret {A : Type} (a : A) : quiet (ret a : M W A).
Proof. intros st. apply quiet_step_refl. Qed.

Lemma quiet_bind {A B : Type} (m : M W A) (k : A -> M W B) :
  quiet m -> (forall a, quiet (k a)) -> quiet (bind m k).
Proof.
  intros Hm Hk st. rewrite bind_eq.
  eapply quiet_step_trans; [apply Hm|apply Hk].
Qed.

Lemma quiet_one (st : agent W) (w : W) (e : event) :
  steps [e] = [] ->
  quiet_step st (Agent w (processed_emails st) (last_check_time st)
                         (last_processed_id st) (trace st ++ [e])).
Proof. intros S. repeat split. now exists [e]. Qed.

Lemma quiet_api_list (q : string) (n : Z) : quiet (api_list q n).
Proof.
  intros st. unfold api_list. destruct (messages_list q n (world st)).
  now apply quiet_one.
Qed.

Lemma quiet_api_get (i : string) (f : format) : quiet (api_get i f).
Proof.
  intros st. unfold api_get. destruct (messages_get i f (world st)).
  now apply quiet_one.
Qed.

Lemma quiet_call_agent (q : string) : quiet (call_agent q).
Proof.
  intros st. unfold call_agent. destruct (agent_stream q (world st)).
  now apply quiet_one.
Qed.

Lemma quiet_now_ms : quiet now_ms.
Proof.
  intros st. unfold now_ms. destruct (time_ms (world st)).
  now apply quiet_one.
Qed.

Lemma quiet_sleep (n : Z) : quiet (sleep n).
Proof. intros st. now apply quiet_one. Qed.

Lemma quiet_is_processed (i : string) : quiet (is_processed (W:=W) i).
Proof. intros st. apply quiet_step_refl. Qed.

Lemma quiet_get_last_check_time : quiet (get_last_check_time (W:=W)).
Proof. intros st. apply quiet_step_refl. Qed.

Create HintDb quiet.
#[local] Hint Resolve quiet_ret quiet_api_list quiet_api_get quiet_call_agent
  quiet_now_ms quiet_sleep quiet_is_processed quiet_get_last_check_time : quiet.

(** Solves [quiet] goals of programs built from binds and matches. *)
Ltac quiet_tac :=
  repeat first
    [ progress auto with quiet
    | apply quiet_bind; [|intros ?]
    | match goal with
      | |- quiet (match ?x with _ => _ end) => destruct x
      | |- quiet (if ?x then _ else _) => destruct x
      end ].

Lemma quiet_run_agent_task (q : string) : quiet (run_agent_task q).
Proof. unfold run_agent_task. quiet_tac. Qed.

Lemma quiet_search_loop (mx : option Z) (ms : list string) (acc : list email_info) :
  quiet (search_loop mx ms acc).
Proof.
  revert acc. induction ms as [|m ms IH]; intros acc; cbn [search_loop]; quiet_tac.
Qed.

Lemma quiet_search_new_emails (mx : option Z) : quiet (search_new_emails mx).
Proof.
  unfold search_new_emails. pose proof quiet_search_loop. quiet_tac.
Qed.

Lemma quiet_get_email_details (i : string) : quiet (get_email_details i).
Proof. unfold get_email_details. quiet_tac. Qed.

Lemma quiet_history_loop (a : string) (ms : list string) (acc : list history_entry) :
  quiet (history_loop a ms acc).
Proof.
  revert acc. induction ms as [|m ms IH]; intros acc; cbn [history_loop]; quiet_tac.
Qed.

Lemma quiet_search_conversation_history (a : string) :
  quiet (search_conversation_history a).
Proof.
  unfold search_conversation_history. pose proof quiet_history_loop. quiet_tac.
Qed.

Lemma quiet_generate_response_with_context (e : email) (h : history) :
  quiet (generate_response_with_context e h).
Proof. apply quiet_run_agent_task. Qed.

Lemma quiet_classify_email (e : email) : quiet (classify_email e).
Proof. unfold classify_email. pose proof quiet_run_agent_task. quiet_tac. Qed.

Lemma quiet_create_draft_reply (e : email) (r : string) :
  quiet (create_draft_reply e r).
Proof. unfold create_draft_reply. pose proof quiet_run_agent_task. quiet_tac. Qed.

Lemma quiet_live_loop (c : Z) (ms : list string) (acc : list email_info) :
  quiet (live_loop c ms acc).
Proof.
  revert acc. induction ms as [|m ms IH]; intros acc; cbn [live_loop]; quiet_tac.
Qed.

End Frames.

(** ** The pipeline of one message *)
Section Pipeline.
Context {W : Type} `{Services W}.

Lemma effect_quiet (st st' : agent W) : quiet_step st st' -> effect ∅ [] st st'.
Proof.
  intros (P & C & evs & T & S). repeat split; [|assumption|now exists evs].
  rewrite P. now rewrite (left_id_L ∅ (∪)).
Qed.

Lemma effect_trans (a1 a2 : gset string) (s1 s2 : list (string * stage))
    (st1 st2 st3 : agent W) :
  effect a1 s1 st1 st2 -> effect a2 s2 st2 st3 ->
  effect (a2 ∪ a1) (s1 ++ s2) st1 st3.
Proof.
  intros (P1 & C1 & evs1 & T1 & S1) (P2 & C2 & evs2 & T2 & S2).
  repeat split.
  - rewrite P2, P1. now rewrite (assoc_L (∪)).
  - congruence.
  - exists (evs1 ++ evs2). split.
    + now rewrite T2, T1, app_assoc.
    + now rewrite steps_app, S1, S2.
Qed.

Lemma effect_eq (a a' : gset string) (ss ss' : list (string * stage))
    (st st' : agent W) :
  effect a ss st st' -> a' = a -> ss' = ss -> effect a' ss' st st'.
Proof. intros E Ha Hs. now subst. Qed.

Lemma effect_emit_step (i : string) (s : stage) (st : agent W) :
  effect ∅ [(i, s)] st (snd (emit (ev_step i s) st)).
Proof.
  repeat split; simpl; [now rewrite (left_id_L ∅ (∪))|]. now exists [ev_step i s].
Qed.

Lemma effect_add_processed (i : string) (st : agent W) :
  effect {[i]} [] st (snd (add_processed i st)).
Proof. repeat split; simpl. exists []. now rewrite app_nil_r. Qed.

Lemma effect_of_quiet {A : Type} (m : M W A) (st : agent W) :
  quiet m -> effect ∅ [] st (snd (m st)).
Proof. intros Q. apply effect_quiet, Q. Qed.

Ltac set_tidy :=
  rewrite ?(left_id_L ∅ (∪)), ?(right_id_L ∅ (∪)); reflexivity.

(** One link of a chain of binds. *)
Ltac effect_link :=
  first
    [ apply effect_emit_step
    | apply effect_add_processed
    | apply effect_of_quiet;
      first [ apply quiet_get_email_details | apply quiet_sleep
            | apply quiet_classify_email | apply quiet_search_conversation_history
            | apply quiet_generate_response_with_context
            | apply quiet_create_draft_reply | apply quiet_ret
            | match goal with |- quiet (if ?b then _ else _) => destruct b end;
              first [apply quiet_sleep | apply quiet_ret] ] ].

Ltac effect_chain :=
  first [ effect_link | eapply effect_trans; cycle 1; [effect_link | effect_chain] ].

Lemma fetch_stage_effect (i : string) (st : agent W) :
  effect ∅ [(i, Fetch); (i, Classify)] st (snd (fetch_stage i st)).
Proof.
  unfold fetch_stage. rewrite !bind_eq.
  eapply effect_eq; [effect_chain|set_tidy|reflexivity].
Qed.

Lemma reply_stage_effect (idx total : nat) (i : string) (e : email) (st : agent W) :
  effect {[i]} [(i, Aggregate); (i, Generate); (i, Draft)] st
         (snd (reply_stage idx total i e st)).
Proof.
  unfold reply_stage. rewrite !bind_eq.
  eapply effect_eq; [effect_chain|set_tidy|reflexivity].
Qed.

Lemma process_email_unfold (idx total : nat) (info : email_info) (st : agent W) :
  process_email idx total info st =
  if PyStr.truthy (id info) then
    let (new_email, st1) := fetch_stage (id info) st in
    let (action, st2) := classify_email new_email st1 in
    if PyStr.contains "ignore" (PyStr.lower action)
    then add_processed (id info) st2
    else reply_stage idx total (id info) new_email st2
  else (tt, st).
Proof.
  unfold process_email, fetch_stage, reply_stage.
  destruct (PyStr.truthy (id info)); [|reflexivity]. cbn [negb].
  unfold bind, ret, emit, sleep.
  destruct (get_email_details _ _) as [new_email st1].
  destruct (classify_email _ _) as [action st2].
  now destruct (PyStr.contains _ _).
Qed.

Lemma run_agent_task_trace (q : string) (st : agent W) :
  trace (snd (run_agent_task q st)) = trace st ++ [ev_agent q].
Proof.
  unfold run_agent_task, bind, call_agent.
  destruct (agent_stream q (world st)) as [[events|e] w]; [|reflexivity].
  destruct (last_messages events) as [ms|e]; [|reflexivity].
  now destruct (List.last (map Some ms) None).
Qed.

Lemma classify_email_trace (e : email) (st : agent W) :
  trace (snd (classify_email e st)) = trace st ++ [ev_agent (classify_query e)].
Proof.
  unfold classify_email. rewrite bind_eq. cbn [ret snd].
  apply run_agent_task_trace.
Qed.

Lemma classify_email_action (e : email) (st : agent W) :
  fst (classify_email e st) =
  PyStr.lower (PyStr.strip (fst (run_agent_task (classify_query e) st))).
Proof. unfold classify_email. now rewrite bind_eq. Qed.

(** The test of [process_new_emails] on the action sees the response. *)
Lemma ignore_test_response (response : string) :
  PyStr.contains "ignore" (PyStr.lower (PyStr.lower (PyStr.strip response))) =
  PyStr.contains "ignore" (PyStr.lower response).
Proof.
  rewrite PyStrFacts.lower_idem, PyStrFacts.lower_strip.
  now apply PyStrFacts.contains_strip.
Qed.

Lemma effect_extends (a : gset string) (ss : list (string * stage)) (st st' : agent W) :
  effect a ss st st' -> extends st st'.
Proof. intros (_ & _ & evs & T & _). now exists evs. Qed.

Lemma effect_steps (a : gset string) (ss : list (string * stage)) (st st' : agent W) :
  effect a ss st st' -> steps (trace st') = steps (trace st) ++ ss.
Proof. intros (_ & _ & evs & T & S). now rewrite T, steps_app, S. Qed.

(** What [process_email] does, by the response of the classifier. *)
Lemma process_email_effect (idx total : nat) (info : email_info) (st : agent W) :
  PyStr.truthy (id info) = true ->
  let st1 := snd (fetch_stage (id info) st) in
  let st2 := snd (classify_email (fst (fetch_stage (id info) st)) st1) in
  let st' := snd (process_email idx total info st) in
  effect ∅ [(id info, Fetch); (id info, Classify)] st st2 /\
  extends st2 st' /\
  effect {[id info]}
    ([(id info, Fetch); (id info, Classify)] ++
     if PyStr.contains "ignore"
          (PyStr.lower (fst (run_agent_task
             (classify_query (fst (fetch_stage (id info) st))) st1)))
     then []
     else [(id info, Aggregate); (id info, Generate); (id info, Draft)])
    st st'.
Proof.
  intros Hid st1 st2 st'.
  assert (E2 : effect ∅ [(id info, Fetch); (id info, Classify)] st st2).
  { eapply effect_eq; [eapply effect_trans; [apply fetch_stage_effect|]| |].
    - apply effect_of_quiet, quiet_classify_email.
    - set_tidy.
    - reflexivity. }
  split; [exact E2|].
  subst st'. rewrite process_email_unfold, Hid.
  pose proof (classify_email_action (fst (fetch_stage (id info) st)) st1) as Ha.
  fold st1 in Ha. subst st2 st1.
  destruct (fetch_stage (id info) st) as [new_email st1] eqn:F.
  cbn [fst snd] in *.
  destruct (classify_email new_email st1) as [action st2] eqn:C.
  cbn [fst snd] in *. subst action.
  rewrite ignore_test_response.
  destruct (PyStr.contains "ignore" _).
  - assert (E : effect {[id info]} [] st2 (snd (add_processed (id info) st2)))
      by apply effect_add_processed.
    split; [eapply effect_extends, E|].
    eapply effect_eq; [eapply effect_trans; [exact E2|exact E]|set_tidy|reflexivity].
  - pose proof (reply_stage_effect idx total (id info) new_email st2) as E.
    split; [eapply effect_extends, E|].
    eapply effect_eq; [eapply effect_trans; [exact E2|exact E]|set_tidy|reflexivity].
Qed.

End Pipeline.

(** ** Classification, degraded fetch and draft confirmation *)
Section Triage.
Context {W : Type} `{Services W}.


(** C8. [create_draft_reply] returns [True] for every confirmation text
    of the adapter, with or without a success phrase in it. *)
Theorem draft_confirmation_optimism (original_email : email) (response_body : string)
    (st : agent W) :
  fst (create_draft_reply original_email response_body st) = true.
Proof.
  unfold create_draft_reply. rewrite bind_eq.
  now destruct (PyStr.any_in success_indicators _).
Qed.

Lemma get_email_details_raise (i : string) (st : agent W) (e : exn) (w' : W) :
  messages_get i Full (world st) = (Raise e, w') ->
  fst (get_email_details i st) = error_email i e.
Proof.
  intros G. unfold get_email_details, bind, api_get. now rewrite G.
Qed.

(** C7. When the full-content fetch of a message raises,
    [get_email_details] returns the placeholder with subject
    [Error fetching email] and a body that contains the error text;
    [process_email] still sends the classification prompt built from that
    placeholder to the agent, announces the classify step and adds the id
    to the processed set. *)
Theorem detail_fetch_degradation (idx total : nat) (info : email_info)
    (st : agent W) (e : exn) (w' : W) :
  messages_get (id info) Full (world st) = (Raise e, w') ->
  PyStr.truthy (id info) = true ->
  let placeholder :=
    Email (id info) "Unknown" "Unknown" "Error fetching email" "Unknown"
          ("Error: " +:+ e) "" in
  let st' := snd (process_email idx total info st) in
  fst (get_email_details (id info) st) = placeholder /\
  PyStr.contains e (e_body placeholder) = true /\
  In (ev_agent (classify_query placeholder)) (trace st') /\
  In (id info, Classify) (steps (trace st')) /\
  id info ∈ processed_emails st'.
Proof.
  intros G Hid placeholder st'.
  split; [exact (get_email_details_raise _ _ _ _ G)|].
  split; [apply PyStrFacts.contains_app_r|].
  pose proof (process_email_effect idx total info st Hid) as (E2 & X & E).
  assert (F : fst (fetch_stage (id info) st) = placeholder).
  { unfold fetch_stage. rewrite !bind_eq. cbn [ret fst].
    exact (get_email_details_raise _ (snd (emit _ st)) _ _ G). }
  rewrite F in *. fold st' in X, E.
  split; [|split].
  - eapply extends_elem; [exact X|].
    rewrite classify_email_trace. apply in_or_app. right. now left.
  - rewrite (effect_steps _ _ _ _ E). apply in_or_app. right.
    apply in_or_app. left. right. now left.
  - destruct E as (P & _). rewrite P.
    apply elem_of_union_l, elem_of_singleton. reflexivity.
Qed.

End Triage.

(** ** Conversation history *)
Section HistoryAggregator.
Context {W : Type} `{Services W}.

Lemma history_loop_entries (a : string) (ms : list string) (acc : list history_entry)
    (st : agent W) :
  fst (history_loop a ms acc st) =
  acc ++ fetched_entries a (fetch_outcomes ms (world st)).
Proof.
  revert acc st. induction ms as [|m ms IH]; intros acc st.
  - simpl. now rewrite app_nil_r.
  - cbn [history_loop fetch_outcomes]. unfold bind, api_get.
    destruct (messages_get m _ (world st)) as [[d|e] w1].
    + rewrite IH. cbn [world fetched_entries].
      now rewrite <- app_assoc.
    + destruct (is_not_found e); now rewrite IH.
Qed.

Lemma fetched_entries_length (a : string) (outs : list (string * result msg_data)) :
  (length (fetched_entries a outs) <= length outs)%nat.
Proof.
  induction outs as [|[i [d|e]] outs IH]; simpl; lia.
Qed.

Lemma fetch_outcomes_length (ms : list string) (w : W) :
  length (fetch_outcomes ms w) = length ms.
Proof.
  revert w. induction ms as [|m ms IH]; intros w; [reflexivity|].
  cbn [fetch_outcomes]. destruct (messages_get m _ w). simpl. now rewrite IH.
Qed.

(** The address that [search_conversation_history] works with. *)
Lemma search_conversation_history_cases (sender_email : string) (st : agent W) :
  let address :=
    match re_search_address sender_email with
    | Some a => a
    | None => sender_email
    end in
  let h := fst (search_conversation_history sender_email st) in
  match messages_list ("(" +:+ address +:+ ")") 20 (world st) with
  | (Raise e, _) => h = History 0 address [] ("Error searching history: " +:+ e)
  | (Ok [], _) =>
      h = History 0 address [] ("No previous conversation with " +:+ address)
  | (Ok messages, w1) =>
      let es := fetched_entries address (fetch_outcomes messages w1) in
      h = History (length es) address es (history_summary address es)
  end.
Proof.
  intros address h. subst h. unfold search_conversation_history.
  fold address. rewrite bind_eq. unfold api_list.
  destruct (messages_list _ 20 (world st)) as [[ms|e] w1]; [|reflexivity].
  destruct ms as [|m ms]; [reflexivity|].
  cbn [fst snd]. rewrite bind_eq. cbn [ret fst].
  rewrite history_loop_entries. reflexivity.
Qed.

(** C9. When the history listing returns no message,
    [search_conversation_history] returns the record with count 0, no
    entry and the summary [No previous conversation with] followed by the
    address; and for any listing the entries returned are those of the
    messages whose metadata fetch succeeded, in order, a failed fetch
    losing its own entry only. *)
Theorem empty_history_result (sender_email : string) (st : agent W) :
  let address :=
    match re_search_address sender_email with
    | Some a => a
    | None => sender_email
    end in
  let h := fst (search_conversation_history sender_email st) in
  (forall w1,
     messages_list ("(" +:+ address +:+ ")") 20 (world st) = (Ok [], w1) ->
     h = History 0 address [] ("No previous conversation with " +:+ address)) /\
  (forall messages w1,
     messages_list ("(" +:+ address +:+ ")") 20 (world st) = (Ok messages, w1) ->
     all_emails h = fetched_entries address (fetch_outcomes messages w1) /\
     hist_sender h = address) /\
  (forall (i : string) (e : exn) (rest : list (string * result msg_data)),
     fetched_entries address ((i, Raise e) :: rest) = fetched_entries address rest).
Proof.
  intros address h.
  pose proof (search_conversation_history_cases sender_email st) as C.
  cbn zeta in C. fold address h in C.
  split; [|split].
  - intros w1 L. now rewrite L in C.
  - intros ms w1 L. rewrite L in C. destruct ms; rewrite C; now split.
  - reflexivity.
Qed.

(** C10. On every path the record returned by
    [search_conversation_history] has [total_count] equal to the number
    of its entries; there are at most as many entries as listed messages,
    so at most 20 when the mailbox honours [maxResults=20]; and when the
    listing raises the count is 0 and there is no entry. *)
Theorem aggregator_invariant (sender_email : string) (st : agent W) :
  let address :=
    match re_search_address sender_email with
    | Some a => a
    | None => sender_email
    end in
  (forall messages w1,
     messages_list ("(" +:+ address +:+ ")") 20 (world st) = (Ok messages, w1) ->
     (length messages <= 20)%nat) ->
  let h := fst (search_conversation_history sender_email st) in
  total_count h = length (all_emails h) /\
  (length (all_emails h) <= 20)%nat /\
  (forall e w1,
     messages_list ("(" +:+ address +:+ ")") 20 (world st) = (Raise e, w1) ->
     total_count h = 0%nat /\ all_emails h = []).
Proof.
  intros address Cap h.
  pose proof (search_conversation_history_cases sender_email st) as C.
  cbn zeta in C. fold address h in C.
  destruct (messages_list _ 20 (world st)) as [[ms|e] w1] eqn:L.
  - assert (B : (length (fetched_entries address (fetch_outcomes ms w1)) <= 20)%nat).
    { pose proof (fetched_entries_length address (fetch_outcomes ms w1)).
      rewrite fetch_outcomes_length in *. specialize (Cap ms w1 eq_refl). lia. }
    destruct ms; rewrite C; cbn [total_count all_emails length];
      (split; [reflexivity|split; [first [exact B|lia]|discriminate]]).
  - rewrite C. cbn [total_count all_emails length].
    split; [reflexivity|split; [lia|now intros]].
Qed.

End HistoryAggregator.

(** ** Enumeration of the new messages *)
Section Enumeration.
Context {W : Type} `{Services W}.

Lemma api_get_fst (i : string) (f : format) (st : agent W) :
  fst (api_get i f st) = fst (messages_get i f (world st)).
Proof. unfold api_get. now destruct (messages_get i f (world st)). Qed.

Lemma api_get_snd (i : string) (f : format) (st : agent W) :
  snd (api_get i f st) =
  Agent (snd (messages_get i f (world st))) (processed_emails st)
        (last_check_time st) (last_processed_id st) (trace st ++ [ev_get i f]).
Proof. unfold api_get. now destruct (messages_get i f (world st)). Qed.

Lemma api_list_fst (q : string) (n : Z) (st : agent W) :
  fst (api_list q n st) = fst (messages_list q n (world st)).
Proof. unfold api_list. now destruct (messages_list q n (world st)). Qed.

Lemma api_list_snd (q : string) (n : Z) (st : agent W) :
  snd (api_list q n st) =
  Agent (snd (messages_list q n (world st))) (processed_emails st)
        (last_check_time st) (last_processed_id st) (trace st ++ [ev_list q n]).
Proof. unfold api_list. now destruct (messages_list q n (world st)). Qed.

Lemma reported_intro (i sender subject date : string) (z : Z) (w w' : W) (d : msg_data) :
  messages_get i (Metadata ["From"; "Subject"; "Date"]) w = (Ok d, w') ->
  py_int (internalDate d) = Ok z ->
  reported (EmailInfo i sender subject date z).
Proof. intros G P. now exists w, d, w'. Qed.

(** What [search_loop] adds to its accumulator: messages of the listing,
    in order, none of them processed, each as the mailbox reported it. *)
Lemma search_loop_spec (mx : option Z) (ms : list string) (acc : list email_info)
    (st : agent W) :
  match fst (search_loop mx ms acc st) with
  | Ok emails =>
      exists new, emails = acc ++ new /\
        map id new `sublist_of` ms /\
        Forall reported new /\
        Forall (fun x => id x ∉ processed_emails st) new
  | Raise _ => True
  end.
Proof.
  revert acc st. induction ms as [|m ms IH]; intros acc st.
  - simpl. exists []. rewrite app_nil_r. repeat split; constructor.
  - cbn [search_loop]. rewrite bind_eq. unfold is_processed at 1 2. cbn [fst snd].
    destruct (bool_decide (m ∈ processed_emails st)) eqn:B.
    + specialize (IH acc st). destruct (fst (search_loop mx ms acc st)); [|exact I].
      destruct IH as (new & E & S & R & P). exists new.
      repeat split; try assumption. now apply sublist_cons.
    + apply bool_decide_eq_false in B.
      rewrite bind_eq, api_get_fst, api_get_snd.
      destruct (messages_get m _ (world st)) as [[d|e] w1] eqn:G; [|exact I].
      cbn [fst snd].
      destruct (py_int (internalDate d)) as [z|e] eqn:Z; [|exact I].
      set (x := EmailInfo m _ _ _ z).
      assert (Rx : reported x) by (eapply reported_intro; eassumption).
      set (st1 := Agent w1 _ _ _ _).
      assert (Done : exists new, acc ++ [x] = acc ++ new /\
                map id new `sublist_of` m :: ms /\ Forall reported new /\
                Forall (fun y => id y ∉ processed_emails st) new).
      { exists [x]. repeat split.
        - simpl. apply sublist_skip, sublist_nil_l.
        - now constructor.
        - now constructor. }
      assert (Go : match fst (search_loop mx ms (acc ++ [x]) st1) with
                   | Ok emails => exists new, emails = acc ++ new /\
                       map id new `sublist_of` m :: ms /\ Forall reported new /\
                       Forall (fun y => id y ∉ processed_emails st) new
                   | Raise _ => True
                   end).
      { specialize (IH (acc ++ [x]) st1).
        destruct (fst (search_loop mx ms (acc ++ [x]) st1)); [|exact I].
        destruct IH as (new & E & S & R & P). exists (x :: new).
        repeat split.
        - now rewrite E, <- app_assoc.
        - simpl. now apply sublist_skip.
        - now constructor.
        - constructor; [exact B|exact P]. }
      destruct (truthy_int mx) as [k|]; [|exact Go].
      destruct (k <=? _); [exact Done|exact Go].
Qed.


Lemma search_new_emails_spec (mx : option Z) (st : agent W) :
  let emails := fst (search_new_emails mx st) in
  Forall reported emails /\
  Forall (fun x => id x ∉ processed_emails st) emails /\
  (emails = [] \/
   exists q n w ms w1, messages_list q n w = (Ok ms, w1) /\
     map id emails `sublist_of` ms).
Proof.
  cbv zeta. unfold search_new_emails. rewrite bind_eq, api_list_fst, api_list_snd.
  destruct (messages_list _ _ (world st)) as [[ms|e] w1] eqn:L; cbn [fst snd].
  2:{ repeat split; [constructor|constructor|now left]. }
  destruct ms as [|m ms].
  { repeat split; [constructor|constructor|now left]. }
  rewrite bind_eq.
  set (st1 := Agent w1 _ _ _ _).
  pose proof (search_loop_spec mx (m :: ms) [] st1) as S.
  destruct (fst (search_loop mx (m :: ms) [] st1)) as [emails|e]; cbn [ret fst].
  2:{ repeat split; [constructor|constructor|now left]. }
  destruct S as (new & E & S & R & P). simpl in E. subst new.
  repeat split; try assumption. right. eauto 10.
Qed.

(** What [live_loop] adds to its accumulator: messages of the listing, in
    order, each newer than the checkpoint and as the mailbox reported
    it. *)
Lemma live_loop_spec (c : Z) (ms : list string) (acc : list email_info) (st : agent W) :
  match fst (live_loop c ms acc st) with
  | Ok emails =>
      exists new, emails = acc ++ new /\
        map id new `sublist_of` ms /\
        Forall reported new /\
        Forall (fun x => c < internal_date x) new
  | Raise _ => True
  end.
Proof.
  revert acc st. induction ms as [|m ms IH]; intros acc st.
  - simpl. exists []. rewrite app_nil_r. repeat split; constructor.
  - cbn [live_loop]. rewrite bind_eq, api_get_fst, api_get_snd.
    destruct (messages_get m _ (world st)) as [[d|e] w1] eqn:G; [|exact I].
    cbn [fst snd].
    destruct (py_int (internalDate d)) as [z|e] eqn:Z; [|exact I].
    destruct (z <=? c) eqn:B.
    + simpl. exists []. rewrite app_nil_r. repeat split; try constructor.
      apply sublist_nil_l.
    + apply Z.leb_gt in B.
      set (x := EmailInfo m _ _ _ z).
      assert (Rx : reported x) by (eapply reported_intro; eassumption).
      set (st1 := Agent w1 _ _ _ _).
      specialize (IH (acc ++ [x]) st1).
      destruct (fst (live_loop c ms (acc ++ [x]) st1)); [|exact I].
      destruct IH as (new & E & S & R & P). exists (x :: new).
      repeat split.
      * now rewrite E, <- app_assoc.
      * simpl. now apply sublist_skip.
      * now constructor.
      * now constructor.
Qed.

Lemma select_new_emails_unfold (st : agent W) :
  select_new_emails st =
  match truthy_int (last_check_time st) with
  | None =>
      let (emails, st1) := search_new_emails (Some 5) st in
      match emails with
      | [] =>
          let (t, st2) := now_ms st1 in
          (None, snd (set_last_check_time t st2))
      | newest :: _ =>
          (Some emails, snd (set_last_check_time (internal_date newest) st1))
      end
  | Some checkpoint =>
      let (results, st1) := api_list unread_query 10 st in
      match results with
      | Raise e => (None, st1)
      | Ok messages =>
          let (r, st2) := live_loop checkpoint messages [] st1 in
          match r with
          | Raise e => (None, st2)
          | Ok emails => (Some emails, st2)
          end
      end
  end.
Proof.
  unfold select_new_emails. unfold bind at 1. unfold get_last_check_time.
  destruct (truthy_int (last_check_time st)) as [c|].
  - unfold bind at 1. destruct (api_list unread_query 10 st) as [[ms|e] st1];
      [|reflexivity].
    unfold bind. destruct (live_loop c ms [] st1) as [[emails|e] st2]; reflexivity.
  - unfold bind at 1. destruct (search_new_emails (Some 5) st) as [[|e es] st1].
    + unfold bind, ret. destruct (now_ms st1). reflexivity.
    + reflexivity.
Qed.

End Enumeration.

(** ** One cycle of [process_new_emails] *)
Section Cycle.
Context {W : Type} `{Services W}.

Lemma process_new_emails_unfold (st : agent W) :
  process_new_emails st =
  let (selected, st1) := select_new_emails st in
  match selected with
  | None => (tt, st1)
  | Some [] => (tt, st1)
  | Some (e :: es) =>
      set_last_check_time (max_internal_date e es)
        (snd (process_loop 1 (length (e :: es)) (e :: es) st1))
  end.
Proof.
  unfold process_new_emails. unfold bind at 1.
  destruct (select_new_emails st) as [[[|e es]|] st1]; try reflexivity.
  now rewrite bind_eq.
Qed.

Lemma process_email_skip (idx total : nat) (info : email_info) (st : agent W) :
  PyStr.truthy (id info) = false -> process_email idx total info st = (tt, st).
Proof. intros E. now rewrite process_email_unfold, E. Qed.

(** The loop adds the non-empty ids of [emails] to the processed set and
    announces each step at most once for each of them, in their order. *)
Lemma process_loop_effect (emails : list email_info) (idx total : nat) (st : agent W) :
  exists ss,
    effect (list_to_set (handled_ids emails)) ss st
           (snd (process_loop idx total emails st)) /\
    forall s, map fst (List.filter (fun p => bool_decide (snd p = s)) ss)
                `sublist_of` handled_ids emails.
Proof.
  revert idx st. induction emails as [|x emails IH]; intros idx st.
  - exists []. simpl. repeat split; [now rewrite (left_id_L ∅ (∪))| |constructor].
    exists []. now rewrite app_nil_r.
  - cbn [process_loop]. rewrite bind_eq.
    destruct (IH (S idx) (snd (process_email idx total x st))) as (ss & E & D).
    unfold handled_ids. cbn [map List.filter].
    destruct (PyStr.truthy (id x)) eqn:T.
    + pose proof (process_email_effect idx total x st T) as (_ & _ & E1).
      cbv zeta in E1.
      eexists. split.
      * eapply effect_eq; [eapply effect_trans; [exact E1|exact E]| |reflexivity].
        rewrite list_to_set_cons. fold (handled_ids emails).
        now rewrite (comm_L (∪)).
      * intros s. rewrite List.filter_app, map_app. fold (handled_ids emails).
        specialize (D s).
        destruct (PyStr.contains "ignore" _), s; simpl;
          first [now apply sublist_skip | now apply sublist_cons].
    + rewrite (process_email_skip idx total x st T) in *. cbn [snd] in *.
      exists ss. exact (conj E D).
Qed.

(** [max(...)] is at least every element and is one of them. *)
Lemma max_internal_date_ge (e : email_info) (es : list email_info) :
  Forall (fun x => internal_date x <= max_internal_date e es) (e :: es).
Proof.
  unfold max_internal_date.
  assert (G : forall es m, m <= fold_left (fun m x => Z.max m (internal_date x)) es m /\
            Forall (fun x => internal_date x <=
                      fold_left (fun m x => Z.max m (internal_date x)) es m) es).
  { clear. induction es as [|x es IH]; intros m; simpl.
    - split; [lia|constructor].
    - destruct (IH (Z.max m (internal_date x))) as [L F].
      split; [lia|]. constructor; [lia|exact F]. }
  destruct (G es (internal_date e)) as [L F]. now constructor.
Qed.

Lemma max_internal_date_in (e : email_info) (es : list email_info) :
  Exists (fun x => internal_date x = max_internal_date e es) (e :: es).
Proof.
  unfold max_internal_date. revert e. induction es as [|x es IH]; intros e; simpl.
  - now constructor.
  - destruct (Z.max_spec (internal_date e) (internal_date x)) as [[_ M]|[_ M]];
      rewrite M.
    + apply Exists_cons_tl. apply (IH x).
    + specialize (IH e). inversion IH; subst.
      * now constructor.
      * now do 2 apply Exists_cons_tl.
Qed.

(** The ids of [emails] are, in order, among those of some listing that the
    mailbox returned. *)
Lemma select_new_emails_spec (st : agent W) :
  let r := fst (select_new_emails st) in
  let st1 := snd (select_new_emails st) in
  processed_emails st1 = processed_emails st /\
  (exists evs, trace st1 = trace st ++ evs /\ steps evs = []) /\
  match truthy_int (last_check_time st) with
  | None =>
      match r with
      | None => exists w, last_check_time st1 = Some (fst (time_ms w))
      | Some emails =>
          exists e es, emails = e :: es /\
            last_check_time st1 = Some (internal_date e) /\
            Forall (fun x => id x ∉ processed_emails st) emails
      end
  | Some c =>
      last_check_time st1 = last_check_time st /\
      match r with
      | None => True
      | Some emails => Forall (fun x => c < internal_date x) emails
      end
  end /\
  match r with
  | None => True
  | Some emails =>
      Forall reported emails /\
      (emails = [] \/
       exists q n w ms w1, messages_list q n w = (Ok ms, w1) /\
         map id emails `sublist_of` ms)
  end.
Proof.
  cbv zeta. rewrite select_new_emails_unfold.
  destruct (truthy_int (last_check_time st)) as [c|] eqn:T.
  - pose proof (quiet_api_list unread_query 10 st) as Q1.
    rewrite api_list_snd in Q1.
    destruct (api_list unread_query 10 st) as [results st1] eqn:L.
    assert (L1 : st1 = snd (api_list unread_query 10 st)) by now rewrite L.
    rewrite api_list_snd in L1. rewrite <- L1 in Q1.
    assert (L2 : results = fst (api_list unread_query 10 st)) by now rewrite L.
    rewrite api_list_fst in L2.
    destruct results as [ms|e].
    + pose proof (quiet_live_loop c ms [] st1) as Q2.
      pose proof (live_loop_spec c ms [] st1) as S.
      destruct (live_loop c ms [] st1) as [[emails|e] st2]; cbn [fst snd] in *.
      * destruct (quiet_step_trans _ _ _ Q1 Q2) as (P & C & X).
        destruct S as (new & E & Sub & R & D). simpl in E. subst new.
        repeat split; try assumption. right.
        destruct (messages_list unread_query 10 (world st)) as [r w1] eqn:ML.
        cbn [fst] in L2. subst r. eauto 10.
      * destruct (quiet_step_trans _ _ _ Q1 Q2) as (P & C & X).
        repeat split; assumption.
    + destruct Q1 as (P & C & X). cbn [fst snd]. repeat split; assumption.
  - pose proof (quiet_search_new_emails (Some 5) st) as Q1.
    pose proof (search_new_emails_spec (Some 5) st) as S. cbv zeta in S.
    destruct (search_new_emails (Some 5) st) as [emails st1]; cbn [fst snd] in *.
    destruct emails as [|e es].
    + pose proof (quiet_now_ms st1) as Q2. unfold now_ms in *.
      destruct (time_ms (world st1)) as [t w2] eqn:TM. cbn [fst snd] in *.
      destruct (quiet_step_trans _ _ _ Q1 Q2) as (P & C & X).
      repeat split; try assumption.
      exists (world st1). now rewrite TM.
    + destruct Q1 as (P & C & X). destruct S as (R & N & Sub).
      cbn [fst snd set_last_check_time processed_emails trace last_check_time].
      repeat split; try assumption.
      exists e, es. repeat split. exact N.
Qed.

Lemma search_new_emails_empty (st : agent W) (w1 : W) :
  messages_list unread_query 5 (world st) = (Ok [], w1) ->
  search_new_emails (Some 5) st =
  ([], Agent w1 (processed_emails st) (last_check_time st) (last_processed_id st)
             (trace st ++ [ev_list unread_query 5])).
Proof.
  intros L. unfold search_new_emails, bind, api_list. cbn [truthy_int].
  now rewrite L.
Qed.

(** C6. With the checkpoint unset and an unread listing that returns no
    message, [process_new_emails] enumerates nothing, sets the checkpoint
    to the clock's epoch-milliseconds, leaves the processed set as it was
    and does nothing but the listing and the reading of the clock. *)
Theorem bootstrap_empty_inbox (st : agent W) (w1 : W) :
  truthy_int (last_check_time st) = None ->
  messages_list unread_query 5 (world st) = (Ok [], w1) ->
  let st' := snd (process_new_emails st) in
  fst (search_new_emails (Some 5) st) = [] /\
  fst (select_new_emails st) = None /\
  last_check_time st' = Some (fst (time_ms w1)) /\
  processed_emails st' = processed_emails st /\
  trace st' = trace st ++ [ev_list unread_query 5; ev_time].
Proof.
  intros T L st'. subst st'.
  rewrite process_new_emails_unfold, select_new_emails_unfold, T.
  rewrite (search_new_emails_empty st w1 L).
  unfold now_ms. cbn [world]. destruct (time_ms w1) as [t w2].
  cbn. repeat split. now rewrite <- app_assoc.
Qed.

(** In live mode a listing that raises ends the cycle with the checkpoint
    and the processed set as they were and no step announced. *)
Lemma listing_failure_live (st : agent W) (c : Z) (e : exn) (w1 : W) :
  truthy_int (last_check_time st) = Some c ->
  messages_list unread_query 10 (world st) = (Raise e, w1) ->
  let st' := snd (process_new_emails st) in
  last_check_time st' = last_check_time st /\
  processed_emails st' = processed_emails st /\
  trace st' = trace st ++ [ev_list unread_query 10].
Proof.
  intros T L st'. subst st'.
  rewrite process_new_emails_unfold, select_new_emails_unfold, T.
  unfold api_list. rewrite L. cbn. now repeat split.
Qed.

(** In bootstrap mode a listing that raises is taken for an empty inbox:
    the checkpoint becomes the time of the clock. *)
Lemma listing_failure_bootstrap (st : agent W) (e : exn) (w1 : W) :
  truthy_int (last_check_time st) = None ->
  messages_list unread_query 5 (world st) = (Raise e, w1) ->
  let st' := snd (process_new_emails st) in
  last_check_time st' = Some (fst (time_ms w1)) /\
  processed_emails st' = processed_emails st /\
  trace st' = trace st ++ [ev_list unread_query 5; ev_time].
Proof.
  intros T L st'. subst st'.
  rewrite process_new_emails_unfold, select_new_emails_unfold, T.
  unfold search_new_emails, bind, api_list. cbn [truthy_int]. rewrite L.
  unfold ret, now_ms. cbn [world]. destruct (time_ms w1) as [t w2].
  cbn. repeat split. now rewrite <- app_assoc.
Qed.

End Cycle.

(** C5. Against a mailbox that cannot be reached at the first listing
    and lists one unread message afterwards, the first cycle of a fresh
    agent does not leave the checkpoint unset: the listing raised, no
    message was handled, and the checkpoint is the time of the clock. The
    unread message, older than that, is listed in the next cycles and
    never handled. *)
Theorem listing_failure_first_cycle :
  let st1 := snd (@process_new_emails nat (scripted offline_once) (init 0%nat)) in
  let st3 := snd (@run_continuous nat (scripted offline_once) 60 3 (init 0%nat)) in
  fst (@messages_list nat (scripted offline_once) unread_query 5 0%nat)
    = Raise "HttpError 503" /\
  last_check_time (init 0%nat) = None /\
  last_check_time st1 = Some 1700000000000 /\
  steps (trace st1) = [] /\
  fst (@messages_list nat (scripted offline_once) unread_query 10 (world st1))
    = Ok ["m1"] /\
  last_check_time st3 = Some 1700000000000 /\
  steps (trace st3) = [].
Proof. vm_compute. repeat split. Qed.

(** ** The live-mode scan *)
Section LiveScan.
Context {W : Type} `{Services W}.

Lemma descending_app_r (l1 l2 : list Z) : descending (l1 ++ l2) -> descending l2.
Proof. induction l1 as [|d l1 IH]; simpl; [easy|]. intros [_ D]. auto. Qed.

Lemma descending_below (c d : Z) (ds : list Z) :
  descending (d :: ds) -> d <= c -> Forall (fun x => x <= c) (d :: ds).
Proof.
  intros [B _] Hd. constructor; [exact Hd|].
  apply List.Forall_forall. intros x Hx. specialize (B x Hx). lia.
Qed.

Lemma filter_newer_prefix (c : Z) (date_of : string -> Z) (l1 l2 : list string) :
  Forall (fun i => c < date_of i) l1 ->
  Forall (fun i => date_of i <= c) l2 ->
  List.filter (fun i => c <? date_of i) (l1 ++ l2) = l1.
Proof.
  intros F1 F2. rewrite List.filter_app.
  replace (List.filter (fun i => c <? date_of i) l2) with (@nil string).
  - rewrite app_nil_r. induction F1 as [|i l1 Hi F1 IH]; [reflexivity|].
    simpl. apply Z.ltb_lt in Hi. now rewrite Hi, IH.
  - induction F2 as [|i l2 Hi F2 IH]; [reflexivity|].
    simpl. apply Z.ltb_ge in Hi. now rewrite Hi.
Qed.

(** The scan takes messages while they are newer than the checkpoint and
    fetches nothing after the first that is not. *)
Lemma live_loop_scan (c : Z) (date_of : string -> Z) (ms : list string)
    (acc : list email_info) (st : agent W) :
  (forall i w, In i ms ->
     exists d w', messages_get i (Metadata ["From"; "Subject"; "Date"]) w = (Ok d, w') /\
       py_int (internalDate d) = Ok (date_of i)) ->
  exists new rest,
    fst (live_loop c ms acc st) = Ok (acc ++ new) /\
    ms = map id new ++ rest /\
    Forall (fun x => internal_date x = date_of (id x) /\ c < internal_date x) new /\
    match rest with [] => True | i :: _ => date_of i <= c end /\
    trace (snd (live_loop c ms acc st)) =
      trace st ++
      map (fun i => ev_get i (Metadata ["From"; "Subject"; "Date"]))
          (map id new ++ firstn 1 rest).
Proof.
  revert acc st. induction ms as [|m ms IH]; intros acc st G.
  - exists [], []. simpl. rewrite !app_nil_r. repeat split. constructor.
  - cbn [live_loop]. rewrite bind_eq, api_get_fst, api_get_snd.
    destruct (G m (world st) (or_introl eq_refl)) as (d & w1 & Gm & Pm).
    rewrite Gm. cbn [fst snd]. rewrite Pm.
    destruct (date_of m <=? c) eqn:B.
    + apply Z.leb_le in B. exists [], (m :: ms). simpl. rewrite app_nil_r.
      repeat split; [constructor|exact B].
    + apply Z.leb_gt in B.
      set (x := EmailInfo m _ _ _ (date_of m)).
      set (st1 := Agent w1 _ _ _ _).
      destruct (IH (acc ++ [x]) st1) as (new & rest & E & M & F & R & T).
      { intros i w Hi. apply G. now right. }
      exists (x :: new), rest. repeat split.
      * now rewrite E, <- app_assoc.
      * simpl. now rewrite M.
      * constructor; [now split|exact F].
      * exact R.
      * rewrite T. subst st1. cbn [trace]. now rewrite <- app_assoc.
Qed.

(** C2. In live mode with checkpoint [c], when the listing returns
    messages whose internal dates (as the metadata fetches report them)
    go from newest to oldest, the enumeration returns exactly the leading
    messages with an internal date above [c], which are all the messages
    above [c]; the rest are at or below [c], and no message after the
    first of the rest is fetched. *)
Theorem live_mode_boundary (st : agent W) (c : Z) (messages : list string)
    (w1 : W) (date_of : string -> Z) :
  truthy_int (last_check_time st) = Some c ->
  messages_list unread_query 10 (world st) = (Ok messages, w1) ->
  (forall i w, In i messages ->
     exists d w', messages_get i (Metadata ["From"; "Subject"; "Date"]) w = (Ok d, w') /\
       py_int (internalDate d) = Ok (date_of i)) ->
  descending (map date_of messages) ->
  exists emails rest,
    fst (select_new_emails st) = Some emails /\
    messages = map id emails ++ rest /\
    map id emails = List.filter (fun i => c <? date_of i) messages /\
    Forall (fun x => internal_date x = date_of (id x) /\ c < internal_date x) emails /\
    Forall (fun i => date_of i <= c) rest /\
    trace (snd (select_new_emails st)) =
      trace st ++ ev_list unread_query 10 ::
      map (fun i => ev_get i (Metadata ["From"; "Subject"; "Date"]))
          (map id emails ++ firstn 1 rest).
Proof.
  intros T L G D.
  rewrite select_new_emails_unfold, T. unfold api_list. rewrite L.
  set (st1 := Agent w1 _ _ _ _).
  destruct (live_loop_scan c date_of messages [] st1 G)
    as (emails & rest & E & M & F & R & Tr).
  simpl in E.
  destruct (live_loop c messages [] st1) as [r st2]. cbn [fst snd] in *. subst r.
  assert (Fr : Forall (fun i => date_of i <= c) rest).
  { destruct rest as [|i rest]; [constructor|].
    rewrite M, map_app in D. apply descending_app_r in D.
    apply (descending_below c) in D; [|exact R].
    apply List.Forall_forall. intros j Hj.
    rewrite List.Forall_forall in D. apply D.
    exact (in_map date_of _ _ Hj). }
  exists emails, rest. repeat split; try assumption.
  - rewrite M. symmetry. apply filter_newer_prefix; [|exact Fr].
    apply List.Forall_forall. intros i Hi. apply in_map_iff in Hi as (x & <- & Hx).
    rewrite List.Forall_forall in F. destruct (F x Hx) as [Ex Hc]. lia.
  - cbn [snd]. rewrite Tr. subst st1. cbn [trace]. now rewrite <- app_assoc.
Qed.

End LiveScan.

(** ** The checkpoint over cycles *)
Section Checkpoint.
Context {W : Type} `{Services W}.

(** The mailbox reports no negative internal date and the clock no
    negative time: both are epoch-milliseconds. *)
Hypothesis dates_nonneg :
  forall i w d w' z,
    messages_get i (Metadata ["From"; "Subject"; "Date"]) w = (Ok d, w') ->
    py_int (internalDate d) = Ok z -> 0 <= z.
Hypothesis clock_nonneg : forall w, 0 <= fst (time_ms w).

Lemma checkpoint_le_refl (a : option Z) : checkpoint_le a a.
Proof. destruct a; simpl; [lia|exact I]. Qed.

Lemma checkpoint_le_trans (a b c : option Z) :
  checkpoint_le a b -> checkpoint_le b c -> checkpoint_le a c.
Proof. destruct a, b, c; simpl; try easy; lia. Qed.

Lemma truthy_int_some (x : option Z) (c : Z) :
  truthy_int x = Some c -> x = Some c /\ c <> 0.
Proof. destruct x as [[| |]|]; simpl; intros E; inversion E; now split. Qed.

Lemma truthy_int_none (x : option Z) : truthy_int x = None -> x = None \/ x = Some 0.
Proof. destruct x as [[| |]|]; simpl; intros E; try discriminate; auto. Qed.

Lemma reported_nonneg (x : email_info) : reported x -> 0 <= internal_date x.
Proof. intros (w & d & w' & G & P). eapply dates_nonneg; eassumption. Qed.

Lemma process_loop_checkpoint (emails : list email_info) (idx total : nat)
    (st : agent W) :
  last_check_time (snd (process_loop idx total emails st)) = last_check_time st.
Proof.
  destruct (process_loop_effect emails idx total st) as (ss & (_ & C & _) & _).
  exact C.
Qed.

(** The checkpoint through the two halves of a cycle. *)
Lemma cycle_checkpoint (st : agent W) :
  let st1 := snd (select_new_emails st) in
  let st' := snd (process_new_emails st) in
  checkpoint_le (last_check_time st) (last_check_time st1) /\
  checkpoint_le (last_check_time st1) (last_check_time st') /\
  (forall e es, fst (select_new_emails st) = Some (e :: es) ->
     last_check_time st' = Some (max_internal_date e es)).
Proof.
  cbv zeta. rewrite process_new_emails_unfold.
  pose proof (select_new_emails_spec st) as (_ & _ & S & R). cbv zeta in S, R.
  destruct (select_new_emails st) as [sel st1]. cbn [fst snd] in *.
  assert (Fin : forall e es, sel = Some (e :: es) ->
            last_check_time
              (snd (set_last_check_time (max_internal_date e es)
                 (snd (process_loop 1 (length (e :: es)) (e :: es) st1))))
            = Some (max_internal_date e es)) by reflexivity.
  destruct (truthy_int (last_check_time st)) as [c|] eqn:T.
  - apply truthy_int_some in T as [T _]. destruct S as [C F]. rewrite C, T.
    destruct sel as [[|e es]|]; cbn [snd].
    + rewrite C, T. simpl. repeat split; try lia. discriminate.
    + rewrite (Fin e es eq_refl). simpl.
      pose proof (max_internal_date_ge e es) as G.
      inversion G; subst. inversion F; subst.
      repeat split; try lia. intros e' es' E. now inversion E.
    + rewrite C, T. simpl. repeat split; try lia. discriminate.
  - destruct sel as [emails|].
    + destruct S as (e & es & -> & C & _). destruct R as [R _].
      cbn [snd]. rewrite (Fin e es eq_refl), C.
      pose proof (max_internal_date_ge e es) as G.
      inversion G; subst. inversion R; subst.
      assert (0 <= internal_date e) by now apply reported_nonneg.
      apply truthy_int_none in T as [T|T]; rewrite T; simpl;
        (repeat split; try lia; intros e' es' E; now inversion E).
    + destruct S as (w & C). cbn [snd]. rewrite C.
      pose proof (clock_nonneg w).
      apply truthy_int_none in T as [T|T]; rewrite T; simpl;
        (repeat split; try lia; discriminate).
Qed.

Lemma run_continuous_checkpoint (interval : Z) (cycles : nat) (st : agent W) :
  checkpoint_le (last_check_time st)
    (last_check_time (snd (run_continuous interval cycles st))).
Proof.
  revert st. induction cycles as [|n IH]; intros st.
  - apply checkpoint_le_refl.
  - cbn [run_continuous]. rewrite !bind_eq.
    destruct (cycle_checkpoint st) as (A & B & _).
    eapply checkpoint_le_trans; [|apply IH].
    cbn [sleep last_check_time snd].
    eapply checkpoint_le_trans; eassumption.
Qed.

End Checkpoint.

Section CheckpointClaim.
Context {W : Type} `{Services W}.

(** C1. With a mailbox and a clock that report epoch-milliseconds (no
    negative value), [process_new_emails] never lowers the checkpoint:
    over a cycle it stays or rises, a checkpoint that was set stays set,
    and so over any number of cycles of [run_continuous]; at the end of a
    cycle that enumerated a non-empty list of messages the checkpoint is
    the largest internal date of that list. *)
Theorem checkpoint_monotonicity (st : agent W) :
  (forall i w d w' z,
     messages_get i (Metadata ["From"; "Subject"; "Date"]) w = (Ok d, w') ->
     py_int (internalDate d) = Ok z -> 0 <= z) ->
  (forall w, 0 <= fst (time_ms w)) ->
  let st' := snd (process_new_emails st) in
  checkpoint_le (last_check_time st) (last_check_time st') /\
  (forall c, last_check_time st = Some c ->
     exists c', last_check_time st' = Some c' /\ c <= c') /\
  (forall e es, fst (select_new_emails st) = Some (e :: es) ->
     last_check_time st' = Some (max_internal_date e es) /\
     Forall (fun x => internal_date x <= max_internal_date e es) (e :: es) /\
     Exists (fun x => internal_date x = max_internal_date e es) (e :: es)) /\
  (forall interval cycles,
     checkpoint_le (last_check_time st)
       (last_check_time (snd (run_continuous interval cycles st)))).
Proof.
  intros Hd Hc st'.
  destruct (cycle_checkpoint Hd Hc st) as (A & B & M). fold st' in B, M.
  assert (L : checkpoint_le (last_check_time st) (last_check_time st'))
    by (eapply checkpoint_le_trans; eassumption).
  split; [exact L|]. split; [|split].
  - intros c E. rewrite E in L. destruct (last_check_time st') as [c'|]; [|easy].
    now exists c'.
  - intros e es E. split; [now apply M|]. split.
    + apply max_internal_date_ge.
    + apply max_internal_date_in.
  - intros interval cycles. now apply run_continuous_checkpoint.
Qed.

End CheckpointClaim.

(** ** No message is handled twice *)
Section Dedup.
Context {W : Type} `{Services W}.
Variable date_of : string -> Z.

(** The mailbox keeps the internal date of a message, dates and clock are
    epoch-milliseconds, and a listing names a message once. *)
Hypothesis dates_stable :
  forall i w d w' z,
    messages_get i (Metadata ["From"; "Subject"; "Date"]) w = (Ok d, w') ->
    py_int (internalDate d) = Ok z -> z = date_of i.
Hypothesis dates_nonneg : forall i, 0 <= date_of i.
Hypothesis clock_nonneg : forall w, 0 <= fst (time_ms w).
Hypothesis listing_nodup :
  forall q n w ms w', messages_list q n w = (Ok ms, w') -> NoDup ms.

Lemma reported_date (x : email_info) : reported x -> internal_date x = date_of (id x).
Proof. intros (w & d & w' & G & P). eapply dates_stable; eassumption. Qed.

Lemma filter_sublist {A : Type} (f : A -> bool) (l : list A) :
  List.filter f l `sublist_of` l.
Proof.
  induction l as [|a l IH]; simpl; [constructor|].
  destruct (f a); [now apply sublist_skip|now apply sublist_cons].
Qed.

Lemma step_ids_quiet (s : stage) (tr evs : list event) :
  steps evs = [] -> step_ids s (tr ++ evs) = step_ids s tr.
Proof.
  intros E. rewrite step_ids_app. unfold step_ids at 2. rewrite E. simpl.
  now rewrite app_nil_r.
Qed.

(** Against such a mailbox the candidates of a cycle are distinct, not
    yet processed, and carry the dates of their messages. *)
Lemma select_fresh (st : agent W) (emails : list email_info) :
  tracker_inv date_of st ->
  fst (select_new_emails st) = Some emails ->
  NoDup (map id emails) /\
  Forall (fun x => id x ∉ processed_emails st) emails /\
  Forall (fun x => internal_date x = date_of (id x)) emails.
Proof.
  intros (_ & _ & I3) E.
  pose proof (select_new_emails_spec st) as (_ & _ & S & R). cbv zeta in S, R.
  rewrite E in S, R. destruct R as [R Sub].
  assert (D : Forall (fun x => internal_date x = date_of (id x)) emails).
  { eapply List.Forall_impl; [|exact R]. intros x. apply reported_date. }
  split; [|split; [|exact D]].
  - destruct Sub as [->|(q & n & w & ms & w1 & L & Sub)]; [constructor|].
    eapply sublist_NoDup; [|exact Sub]. eapply listing_nodup, L.
  - destruct (truthy_int (last_check_time st)) as [c|] eqn:T.
    + destruct S as [_ F].
      destruct (last_check_time st) as [c'|]; [|discriminate].
      assert (c' = c) by (destruct c'; simpl in T; congruence). subst c'.
      destruct I3 as [_ I3].
      rewrite List.Forall_forall in *. intros x Hx Hin.
      specialize (F x Hx). specialize (D x Hx). specialize (I3 _ Hin). lia.
    + destruct S as (e & es & _ & _ & F). exact F.
Qed.

Lemma handled_ids_elem (emails : list email_info) (i : string) :
  i ∈ handled_ids emails -> exists x, In x emails /\ id x = i.
Proof.
  intros Hi. apply list_elem_of_In in Hi. unfold handled_ids in Hi.
  apply List.filter_In in Hi as [Hi _]. apply in_map_iff in Hi as (x & E & Hx).
  now exists x.
Qed.

(** A cycle keeps the invariant. *)
Lemma cycle_inv (st : agent W) :
  tracker_inv date_of st -> tracker_inv date_of (snd (process_new_emails st)).
Proof.
  intros Inv.
  pose proof (select_new_emails_spec st) as (P1 & (evs1 & T1 & S1) & S & R).
  cbv zeta in S, R.
  pose proof (fun emails => select_fresh st emails Inv) as Fresh.
  rewrite process_new_emails_unfold.
  destruct (select_new_emails st) as [sel st1]. cbn [fst snd] in *.
  destruct Inv as (I1 & I2 & I3).
  assert (Same : forall c,
            last_check_time st1 = Some c -> 0 <= c ->
            (forall i, i ∈ processed_emails st -> date_of i <= c) ->
            tracker_inv date_of st1).
  { intros c C Hc B. repeat split.
    - intros s. rewrite T1, step_ids_quiet by exact S1. apply I1.
    - intros s i. rewrite T1, step_ids_quiet, P1 by exact S1. apply I2.
    - rewrite C, P1. now split. }
  assert (Old : forall c, truthy_int (last_check_time st) = None -> 0 <= c ->
            forall i, i ∈ processed_emails st -> date_of i <= c).
  { intros c T Hc i Hi. apply truthy_int_none in T as [T|T]; rewrite T in I3.
    - rewrite I3 in Hi. now apply elem_of_empty in Hi.
    - destruct I3 as [_ I3]. specialize (I3 i Hi). lia. }
  assert (Live : forall c, truthy_int (last_check_time st) = Some c ->
            last_check_time st1 = last_check_time st -> tracker_inv date_of st1).
  { intros c T C. apply truthy_int_some in T as [T _]. rewrite T in I3, C.
    destruct I3 as [Hc I3]. now apply (Same c). }
  destruct sel as [[|e es]|]; cbn [snd].
  - destruct (truthy_int (last_check_time st)) as [c|] eqn:T.
    + destruct S as [C _]. now apply (Live c).
    + destruct S as (e & es & E & _). discriminate.
  - destruct (Fresh (e :: es) eq_refl) as (ND & NP & D).
    destruct (process_loop_effect (e :: es) 1 (length (e :: es)) st1)
      as (ss & (P2 & C2 & evs2 & T2 & S2) & Sub).
    set (st2 := snd (process_loop 1 (length (e :: es)) (e :: es) st1)) in *.
    pose proof (max_internal_date_ge e es) as G.
    assert (HN : NoDup (handled_ids (e :: es))).
    { eapply sublist_NoDup; [exact ND|]. apply filter_sublist. }
    assert (HF : forall i, i ∈ handled_ids (e :: es) ->
               (i ∉ processed_emails st) /\ date_of i <= max_internal_date e es).
    { intros i Hi. apply handled_ids_elem in Hi as (x & Hx & <-).
      rewrite List.Forall_forall in NP, D, G.
      specialize (NP x Hx). specialize (D x Hx). specialize (G x Hx).
      split; [exact NP|lia]. }
    assert (Ids : forall s, step_ids s (trace st2) =
              step_ids s (trace st) ++
              map fst (List.filter (fun p => bool_decide (snd p = s)) ss)).
    { intros s. rewrite T2, step_ids_app, T1, step_ids_quiet by exact S1.
      unfold step_ids at 2. now rewrite S2. }
    assert (M0 : 0 <= max_internal_date e es).
    { inversion G; subst. inversion D; subst. pose proof (dates_nonneg (id e)). lia. }
    repeat split; cbn [set_last_check_time snd trace processed_emails last_check_time].
    + intros s. rewrite Ids. apply NoDup_app. split; [apply I1|]. split.
      * intros i Hi Hn. apply I2 in Hi.
        apply (elem_of_sublist _ _ _ Hn) in Sub.
        destruct (HF i Sub) as [NPi _]. contradiction.
      * eapply sublist_NoDup; [exact HN|apply Sub].
    + intros s i. rewrite Ids, P2, P1. intros Hi.
      apply elem_of_app in Hi as [Hi|Hi].
      * apply elem_of_union_r. now apply (I2 s).
      * apply elem_of_union_l, elem_of_list_to_set.
        exact (elem_of_sublist _ _ _ Hi (Sub s)).
    + exact M0.
    + intros i. rewrite P2, P1. intros Hi.
      apply elem_of_union in Hi as [Hi|Hi].
      * apply elem_of_list_to_set in Hi. now apply HF.
      * destruct (truthy_int (last_check_time st)) as [c|] eqn:T.
        -- destruct S as [_ F]. apply truthy_int_some in T as [T _].
           rewrite T in I3. destruct I3 as [_ I3]. specialize (I3 i Hi).
           inversion F; subst. inversion G; subst. lia.
        -- now apply (Old _ eq_refl M0).
  - destruct (truthy_int (last_check_time st)) as [c|] eqn:T.
    + destruct S as [C _]. now apply (Live c).
    + destruct S as (w & C). apply (Same _ C (clock_nonneg w)).
      apply (Old _ eq_refl (clock_nonneg w)).
Qed.

Lemma run_continuous_inv (interval : Z) (cycles : nat) (st : agent W) :
  tracker_inv date_of st ->
  tracker_inv date_of (snd (run_continuous interval cycles st)).
Proof.
  revert st. induction cycles as [|n IH]; intros st Inv; [exact Inv|].
  cbn [run_continuous]. rewrite !bind_eq. apply IH.
  apply cycle_inv in Inv. destruct Inv as (I1 & I2 & I3).
  repeat split; cbn [sleep snd trace processed_emails last_check_time].
  - intros s. rewrite step_ids_quiet by reflexivity. apply I1.
  - intros s i. rewrite step_ids_quiet by reflexivity. apply I2.
  - exact I3.
Qed.

Lemma init_inv (w : W) : tracker_inv date_of (init w).
Proof.
  repeat split; simpl.
  - intros s. constructor.
  - intros s i Hi. now apply elem_of_nil in Hi.
Qed.

End Dedup.


(** ** The claims on the example mailboxes *)

(** The dates must be stable for this: were a mailbox to report a later
    internal date for a message already handled, the live-mode scan, which
    goes by the checkpoint alone, would enumerate the message again and a
    second draft would be made for it. *)
Example redated_message_drafted_twice :
  let st1 := snd (@run_continuous nat (scripted redated) 60 1 (init 0%nat)) in
  let st2 := snd (@run_continuous nat (scripted redated) 60 2 (init 0%nat)) in
  bool_decide ("a" ∈ processed_emails st1) = true /\
  last_check_time st1 = Some 100 /\
  option_map (map id) (fst (@select_new_emails nat (scripted redated) st1))
    = Some ["a"] /\
  step_ids Classify (trace st2) = ["a"; "a"] /\
  step_ids Draft (trace st2) = ["a"; "a"] /\
  ~ NoDup (step_ids Draft (trace st2)).
Proof.
  cbv zeta. repeat split; try (vm_compute; reflexivity).
  intros N.
  assert (E : step_ids Draft
            (trace (snd (@run_continuous nat (scripted redated) 60 2 (init 0%nat))))
            = ["a"; "a"]) by (vm_compute; reflexivity).
  rewrite E in N. apply NoDup_cons in N as [N _]. apply N. now left.
Qed.

(** The example mailbox [steady] keeps its dates, reports nothing
    negative and lists every message once. *)
Lemma steady_dates_stable (i : string) (w : nat) (d : msg_data) (w' : nat) (z : Z) :
  @messages_get nat (scripted steady) i (Metadata ["From"; "Subject"; "Date"]) w
    = (Ok d, w') ->
  py_int (internalDate d) = Ok z -> z = example_date i.
Proof.
  simpl. intros G P. inversion G; subst. simpl in P. now inversion P.
Qed.

Lemma example_date_nonneg (i : string) : 0 <= example_date i.
Proof.
  unfold example_date.
  repeat match goal with |- context [if ?b then _ else _] => destruct b end; lia.
Qed.

Lemma steady_dates_nonneg (i : string) (w : nat) (d : msg_data) (w' : nat) (z : Z) :
  @messages_get nat (scripted steady) i (Metadata ["From"; "Subject"; "Date"]) w
    = (Ok d, w') ->
  py_int (internalDate d) = Ok z -> 0 <= z.
Proof.
  intros G P. rewrite (steady_dates_stable i w d w' z G P).
  apply example_date_nonneg.
Qed.

Lemma steady_clock_nonneg (w : nat) : 0 <= fst (@time_ms nat (scripted steady) w).
Proof. simpl. lia. Qed.

Lemma steady_listing_nodup (q : string) (n : Z) (w : nat) (ms : list string) (w' : nat) :
  @messages_list nat (scripted steady) q n w = (Ok ms, w') -> NoDup ms.
Proof.
  simpl. destruct (String.eqb q unread_query); intros L; inversion L; subst.
  - apply (bool_decide_unpack _). vm_compute. exact I.
  - constructor.
Qed.

(** The first cycle on the example inbox: the checkpoint goes from unset
    to the newest date. *)
Lemma checkpoint_monotonicity_witness :
  let st' := snd (@process_new_emails nat (scripted steady) (init 0%nat)) in
  checkpoint_le None (last_check_time st') /\
  last_check_time st' = Some 500.
Proof.
  destruct (@checkpoint_monotonicity nat (scripted steady) (init 0%nat)
              steady_dates_nonneg steady_clock_nonneg) as (L & _ & M & _).
  split; [exact L|].
  destruct (M (EmailInfo "m500" "Unknown" "No Subject" "Unknown" 500)
              [EmailInfo "m400" "Unknown" "No Subject" "Unknown" 400;
               EmailInfo "m300" "Unknown" "No Subject" "Unknown" 300;
               EmailInfo "m250" "Unknown" "No Subject" "Unknown" 250])
    as [E _]; [vm_compute; reflexivity|exact E].
Defined.

(** Checkpoint 300 on the example inbox: the scan keeps the messages
    dated 500 and 400. *)
Lemma live_mode_boundary_witness :
  let st := Agent 0%nat ∅ (Some 300) None [] in
  exists emails rest,
    fst (@select_new_emails nat (scripted steady) st) = Some emails /\
    ["m500"; "m400"; "m300"; "m250"] = map id emails ++ rest /\
    map id emails = ["m500"; "m400"] /\
    Forall (fun i => example_date i <= 300) rest.
Proof.
  destruct (@live_mode_boundary nat (scripted steady)
              (Agent 0%nat ∅ (Some 300) None []) 300
              ["m500"; "m400"; "m300"; "m250"] 1%nat example_date)
    as (emails & rest & E & M & F & _ & R & _).
  - reflexivity.
  - reflexivity.
  - intros i w _. exists (dated (example_date i)), (S w). now split.
  - simpl. repeat split; intros d' Hd;
      repeat (destruct Hd as [<-|Hd]; [vm_compute; discriminate|]); destruct Hd.
  - exists emails, rest. repeat split; assumption.
Defined.



(** The first cycle on an empty inbox. *)
Lemma bootstrap_empty_inbox_witness :
  let st' := snd (@process_new_emails nat (scripted empty_inbox) (init 0%nat)) in
  last_check_time st' = Some 1700000000000 /\
  processed_emails st' = ∅ /\
  trace st' = [ev_list unread_query 5; ev_time].
Proof.
  destruct (@bootstrap_empty_inbox nat (scripted empty_inbox) (init 0%nat) 1%nat
              eq_refl eq_refl) as (_ & _ & C & P & T).
  repeat split; assumption.
Defined.

(** A message whose fetch raises is still classified and marked
    processed. *)
Lemma detail_fetch_degradation_witness :
  let info := EmailInfo "m1" "Unknown" "No Subject" "Unknown" 5 in
  let st' := snd (@process_email nat (scripted offline) 1 1 info (init 0%nat)) in
  e_subject (fst (@get_email_details nat (scripted offline) "m1" (init 0%nat)))
    = "Error fetching email" /\
  In ("m1", Classify) (steps (trace st')) /\
  "m1" ∈ processed_emails st'.
Proof.
  destruct (@detail_fetch_degradation nat (scripted offline) 1 1
              (EmailInfo "m1" "Unknown" "No Subject" "Unknown" 5) (init 0%nat)
              "HttpError 503" 1%nat eq_refl eq_refl) as (G & _ & _ & S & P).
  cbv zeta. split; [|exact (conj S P)].
  exact (f_equal e_subject G).
Defined.

(** No history on the example inbox; on [flaky_history] the deleted
    message alone is missing from the entries. *)
Lemma empty_history_result_witness :
  fst (@search_conversation_history nat (scripted steady) "ann@example.org" (init 0%nat))
    = History 0 "ann@example.org" []
        "No previous conversation with ann@example.org" /\
  map he_id (all_emails (fst (@search_conversation_history nat (scripted flaky_history)
                                "ann@example.org" (init 0%nat))))
    = ["h1"; "h3"].
Proof.
  split.
  - destruct (@empty_history_result nat (scripted steady) "ann@example.org" (init 0%nat))
      as (E & _). exact (E 1%nat eq_refl).
  - destruct (@empty_history_result nat (scripted flaky_history) "ann@example.org"
                (init 0%nat)) as (_ & E & _).
    destruct (E ["h1"; "h2"; "h3"] 1%nat eq_refl) as [A _].
    rewrite A. reflexivity.
Defined.

(** On [flaky_history] two of the three listed messages are counted. *)
Lemma aggregator_invariant_witness :
  let h := fst (@search_conversation_history nat (scripted flaky_history)
                  "ann@example.org" (init 0%nat)) in
  total_count h = 2%nat /\ (length (all_emails h) <= 20)%nat.
Proof.
  destruct (@aggregator_invariant nat (scripted flaky_history) "ann@example.org"
              (init 0%nat)) as (T & B & _).
  - intros ms w1 L. simpl in L. inversion L. simpl. lia.
  - cbv zeta. split; [rewrite T; reflexivity|exact B].
Defined.

(** The live scenario of the specification: with checkpoint 300 and a
    listing dated 500, 400, 300, 250, the new messages are the first two
    and the checkpoint becomes 500. *)
Example live_scenario :
  let st := Agent 0%nat ∅ (Some 300) None [] in
  option_map (map id) (fst (@select_new_emails nat (scripted steady) st))
    = Some ["m500"; "m400"] /\
  last_check_time (snd (@process_new_emails nat (scripted steady) st)) = Some 500.
Proof. split; vm_compute; reflexivity. Qed.

(** The bootstrap scenario: with no checkpoint all listed messages are
    new and the checkpoint becomes the newest date. *)
Example bootstrap_scenario :
  let st := init 0%nat in
  option_map (map id) (fst (@select_new_emails nat (scripted steady) st))
    = Some ["m500"; "m400"; "m300"; "m250"] /\
  last_check_time (snd (@select_new_emails nat (scripted steady) st)) = Some 500 /\
  last_check_time (snd (@process_new_emails nat (scripted steady) st)) = Some 500.
Proof. repeat split; vm_compute; reflexivity. Qed.

(** A checkpoint of 0 counts as no checkpoint: the cycle lists with the
    bootstrap limit of 5 and takes every unread message. *)
Example zero_checkpoint_bootstraps :
  let st := Agent 0%nat ∅ (Some 0) None [] in
  hd_error (trace (snd (@select_new_emails nat (scripted steady) st)))
    = Some (ev_list unread_query 5) /\
  option_map (map id) (fst (@select_new_emails nat (scripted steady) st))
    = Some ["m500"; "m400"; "m300"; "m250"].
Proof. split; vm_compute; reflexivity. Qed.

(** The processed set is read when the candidates are enumerated and
    written when they are handled: an id that a bootstrap listing names
    twice is enumerated and drafted twice in that cycle. *)
Example doubled_listing_drafts_twice :
  let st := snd (@process_new_emails nat (scripted doubled) (init 0%nat)) in
  step_ids Draft (trace st) = ["a"; "a"].
Proof. vm_compute. reflexivity. Qed.

(** * Further properties of the methods *)

(** ** [run_agent_task] *)
Section AgentTask.
Context {W : Type} `{Services W}.

Lemma last_map_some {A : Type} (l : list A) :
  List.last (map Some l) None = last l.
Proof.
  induction l as [|a l IH]; [reflexivity|].
  destruct l as [|b l]; [reflexivity|]. exact IH.
Qed.

Lemma last_messages_ok (events : list (list message)) :
  Forall (fun ev => ev <> []) events ->
  exists ms, last_messages events = Ok ms /\
    last ms = last events ≫= last.
Proof.
  induction events as [|ev events IH]; intros F.
  - now exists [].
  - inversion F as [|? ? Hev F']; subst. destruct (IH F') as (ms & E & L).
    cbn [last_messages]. rewrite last_map_some.
    destruct (last ev) as [m|] eqn:Lev.
    + rewrite E. exists (m :: ms). split; [reflexivity|].
      destruct events as [|ev' events].
      * simpl in E. inversion E; subst. simpl. now rewrite Lev.
      * destruct ms as [|m' ms].
        -- cbn [last_messages] in E. destruct (List.last (map Some ev') None);
             [destruct (last_messages events)|]; discriminate.
        -- exact L.
    + apply last_None in Lev. contradiction.
Qed.

Lemma last_messages_raise (events : list (list message)) :
  Exists (fun ev => ev = []) events ->
  last_messages events = Raise "list index out of range".
Proof.
  induction events as [|ev events IH]; intros X; [inversion X|].
  cbn [last_messages]. rewrite last_map_some.
  destruct (last ev) as [m|] eqn:Lev; [|reflexivity].
  inversion X as [? ? E|? ? X']; subst; [simpl in Lev; discriminate|].
  now rewrite (IH X').
Qed.

(** X1. [run_agent_task] makes one call to the agent and touches nothing
    else. It returns the text of the last message of the last streamed
    event when every event carries a message, [No response] when nothing
    is streamed, and a text starting with [Error: ] when the stream raises
    or when any event, even an early one, carries no message. *)
Theorem run_agent_task_result (query : string) (st : agent W) :
  let response := fst (run_agent_task query st) in
  let st' := snd (run_agent_task query st) in
  trace st' = trace st ++ [ev_agent query] /\
  processed_emails st' = processed_emails st /\
  last_check_time st' = last_check_time st /\
  match fst (agent_stream query (world st)) with
  | Raise e => response = "Error: " +:+ e
  | Ok [] => response = "No response"
  | Ok events =>
      (Forall (fun ev => ev <> []) events ->
       exists ev m, last events = Some ev /\ last ev = Some m /\
         response = message_text m) /\
      (Exists (fun ev => ev = []) events ->
       response = "Error: list index out of range")
  end.
Proof.
  cbv zeta. split; [apply run_agent_task_trace|].
  destruct (quiet_run_agent_task query st) as (P & C & _).
  split; [exact P|]. split; [exact C|].
  unfold run_agent_task. rewrite bind_eq. unfold call_agent.
  destruct (agent_stream query (world st)) as [[events|e] w]; cbn [fst snd];
    [|reflexivity].
  destruct events as [|ev events]; [reflexivity|].
  split.
  - intros F. destruct (last_messages_ok _ F) as (ms & E & L). rewrite E.
    rewrite last_map_some, L.
    destruct (last (ev :: events)) as [ev'|] eqn:Le;
      [|apply last_None in Le; discriminate].
    cbn [mbind option_bind] in *.
    assert (Hne : ev' <> []).
    { rewrite List.Forall_forall in F. apply F, list_elem_of_In.
      now apply last_Some_elem_of. }
    destruct (last ev') as [m|] eqn:Lm.
    + now exists ev', m.
    + apply last_None in Lm. contradiction.
  - intros X. now rewrite (last_messages_raise _ X).
Qed.

End AgentTask.

(** ** [get_email_details] and the header lookup *)
Section Details.
Context {W : Type} `{Services W}.

Lemma length_app_string (a b : string) :
  String.length (a +:+ b) = (String.length a + String.length b)%nat.
Proof. induction a as [|c a IH]; simpl; [reflexivity|now rewrite IH]. Qed.

Lemma slice_to_length (n : nat) (s : string) :
  (String.length (PyStr.slice_to n s) <= n)%nat.
Proof.
  revert s. induction n as [|n IH]; intros s; [simpl; lia|].
  destruct s as [|c s]; simpl; [lia|]. specialize (IH s). lia.
Qed.

Lemma slice_to_short (n : nat) (s : string) :
  (String.length s <= n)%nat -> PyStr.slice_to n s = s.
Proof.
  revert s. induction n as [|n IH]; intros s L.
  - destruct s; [reflexivity|simpl in L; lia].
  - destruct s as [|c s]; [reflexivity|]. simpl in *. rewrite IH; [reflexivity|lia].
Qed.

Lemma truthy_app_l (a b : string) : PyStr.truthy a = true -> PyStr.truthy (a +:+ b) = true.
Proof. now destruct a. Qed.

Lemma or_else_truthy (a b : string) :
  PyStr.truthy b = true -> PyStr.truthy (PyStr.or_else a b) = true.
Proof. unfold PyStr.or_else. now destruct (PyStr.truthy a) eqn:E. Qed.

Lemma or_else_length (a b : string) (n : nat) :
  (String.length a <= n)%nat -> (String.length b <= n)%nat ->
  (String.length (PyStr.or_else a b) <= n)%nat.
Proof. unfold PyStr.or_else. now destruct (PyStr.truthy a). Qed.

Lemma get_email_details_trace (i : string) (st : agent W) :
  trace (snd (get_email_details i st)) = trace st ++ [ev_get i Full].
Proof.
  unfold get_email_details. rewrite bind_eq, api_get_fst, api_get_snd.
  destruct (messages_get i Full (world st)) as [[msg|e] w]; cbn [fst snd];
    [|reflexivity].
  now destruct (match body_data (msg_payload msg) with
                | Some d => urlsafe_b64decode_utf8 d
                | None => Ok ""
                end).
Qed.

(** X2. [get_email_details] fetches the message once, in full format, and
    returns a record for the id it was asked for whose body is never
    empty; the record is either the error placeholder or has a body of at
    most 2014 characters (2000 and the truncation marker). *)
Theorem get_email_details_shape (message_id : string) (st : agent W) :
  let e := fst (get_email_details message_id st) in
  let st' := snd (get_email_details message_id st) in
  e_id e = message_id /\
  PyStr.truthy (e_body e) = true /\
  ((exists err, e = error_email message_id err) \/
   (String.length (e_body e) <= 2014)%nat) /\
  trace st' = trace st ++ [ev_get message_id Full] /\
  processed_emails st' = processed_emails st /\
  last_check_time st' = last_check_time st.
Proof.
  cbv zeta.
  destruct (quiet_get_email_details message_id st) as (P & C & _).
  assert (Shape :
    e_id (fst (get_email_details message_id st)) = message_id /\
    PyStr.truthy (e_body (fst (get_email_details message_id st))) = true /\
    ((exists err, fst (get_email_details message_id st) = error_email message_id err) \/
     (String.length (e_body (fst (get_email_details message_id st))) <= 2014)%nat)).
  { unfold get_email_details. rewrite bind_eq, api_get_fst.
    destruct (messages_get message_id Full (world st)) as [[msg|e] w]; cbn [fst snd].
    2:{ repeat split. left. now exists e. }
    destruct (match body_data (msg_payload msg) with
              | Some d => urlsafe_b64decode_utf8 d
              | None => Ok ""
              end) as [text|e].
    2:{ repeat split. left. now exists e. }
    cbn [ret fst e_id e_body]. split; [reflexivity|]. split.
    - now apply or_else_truthy.
    - right. apply or_else_length;
        [|change (String.length "No body content") with 15%nat; lia].
      destruct (2000 <? String.length text)%nat eqn:L.
      + rewrite length_app_string. pose proof (slice_to_length 2000 text).
        change (String.length "...[truncated]") with 14%nat. lia.
      + apply Nat.ltb_ge in L. lia. }
  destruct Shape as (I & T & B).
  repeat split; try assumption. apply get_email_details_trace.
Qed.

Lemma first_plain_data_none (ps : list part) :
  Forall (fun q => mimeType q <> Some "text/plain" \/ part_data q = "") ps ->
  first_plain_data ps = None.
Proof.
  induction 1 as [|q ps [Hq|Hq] F IH]; [reflexivity| |]; cbn [first_plain_data].
  - rewrite bool_decide_eq_false_2 by exact Hq. exact IH.
  - rewrite Hq. cbn [PyStr.truthy]. rewrite andb_false_r. exact IH.
Qed.

Lemma first_plain_data_first (ps1 ps2 : list part) (q : part) :
  Forall (fun q => mimeType q <> Some "text/plain" \/ part_data q = "") ps1 ->
  mimeType q = Some "text/plain" -> part_data q <> "" ->
  first_plain_data (ps1 ++ q :: ps2) = Some (part_data q).
Proof.
  intros F M D. induction F as [|p ps1 [Hp|Hp] F IH]; cbn [first_plain_data app].
  - rewrite bool_decide_eq_true_2 by exact M.
    destruct (part_data q); [contradiction|reflexivity].
  - rewrite bool_decide_eq_false_2 by exact Hp. exact IH.
  - rewrite Hp. cbn [PyStr.truthy]. rewrite andb_false_r. exact IH.
Qed.

(** X3. When the payload of a fetched message has parts, only they are
    looked at: the body is decoded from the first [text/plain] part that
    has data, whatever comes after it; and when no part is usable the body
    is [No body content], even if the payload carries a body of its own. *)
Theorem get_email_details_parts (message_id : string) (st : agent W)
    (msg : msg_data) (w' : W) (p : payload) (ps : list part) :
  messages_get message_id Full (world st) = (Ok msg, w') ->
  msg_payload msg = Some p ->
  parts p = Some ps ->
  let e := fst (get_email_details message_id st) in
  (Forall (fun q => mimeType q <> Some "text/plain" \/ part_data q = "") ps ->
   e_body e = "No body content") /\
  (forall ps1 q ps2 text,
     ps = ps1 ++ q :: ps2 ->
     Forall (fun q => mimeType q <> Some "text/plain" \/ part_data q = "") ps1 ->
     mimeType q = Some "text/plain" -> part_data q <> "" ->
     urlsafe_b64decode_utf8 (part_data q) = Ok text ->
     e_body e =
       PyStr.or_else
         (if (2000 <? String.length text)%nat
          then PyStr.slice_to 2000 text +:+ "...[truncated]" else text)
         "No body content").
Proof.
  intros G Pl Ps e. subst e.
  unfold get_email_details. rewrite bind_eq, api_get_fst, G. cbn [fst snd].
  unfold body_data. rewrite Pl, Ps. split.
  - intros F. now rewrite (first_plain_data_none ps F).
  - intros ps1 q ps2 text -> F M D U.
    now rewrite (first_plain_data_first ps1 ps2 q F M D), U.
Qed.

Lemma find_names_none (name : string) (hs : list header) :
  Forall (fun h => names name h = false) hs ->
  List.find (fun h => String.eqb (PyStr.lower (h_name h)) name) hs = None.
Proof.
  induction 1 as [|h hs Hh F IH]; [reflexivity|]. cbn [List.find].
  unfold names in Hh. now rewrite Hh.
Qed.

(** X4. The header lookup used by every method compares names without
    regard to case, returns the value of the first header that matches
    and the default when none does. *)
Theorem header_value_lookup (hs : list header) (name default : string) :
  (Forall (fun h => names name h = false) hs ->
   header_value hs name default = default) /\
  (forall hs1 h hs2,
     hs = hs1 ++ h :: hs2 ->
     Forall (fun h => names name h = false) hs1 ->
     names name h = true ->
     header_value hs name default = h_value h) /\
  header_value (map (fun h => Header (PyStr.lower (h_name h)) (h_value h)) hs)
    name default = header_value hs name default.
Proof.
  unfold header_value. split; [|split].
  - intros F. now rewrite (find_names_none name hs F).
  - intros hs1 h hs2 -> F N. induction F as [|h1 hs1 H1 F IH]; cbn [List.find app].
    + unfold names in N. now rewrite N.
    + unfold names in H1. now rewrite H1.
  - induction hs as [|h hs IH]; [reflexivity|]. cbn [map List.find h_name h_value].
    rewrite PyStrFacts.lower_idem.
    destruct (String.eqb (PyStr.lower (h_name h)) name); [reflexivity|exact IH].
Qed.

End Details.

(** ** Enumeration: the bootstrap cap and the live scan *)
Section EnumerationMore.
Context {W : Type} `{Services W}.

Lemma search_loop_cap (m : Z) (ms : list string) (acc : list email_info)
    (st : agent W) :
  0 < m -> Z.of_nat (length acc) < m ->
  match fst (search_loop (Some m) ms acc st) with
  | Ok emails => Z.of_nat (length emails) <= m
  | Raise _ => True
  end.
Proof.
  intros Hm. revert acc st. induction ms as [|i ms IH]; intros acc st L.
  - simpl. lia.
  - cbn [search_loop]. rewrite bind_eq. unfold is_processed at 1 2. cbn [fst snd].
    destruct (bool_decide (i ∈ processed_emails st)); [now apply IH|].
    rewrite bind_eq, api_get_fst, api_get_snd.
    destruct (messages_get i _ (world st)) as [[d|e] w1]; [|exact I].
    cbn [fst snd]. destruct (py_int (internalDate d)) as [z|e]; [|exact I].
    assert (T : truthy_int (Some m) = Some m) by (destruct m; simpl; try lia; reflexivity).
    rewrite T. rewrite length_app. cbn [length].
    destruct (m <=? Z.of_nat (length acc + 1)) eqn:B.
    + cbn [ret fst]. rewrite length_app. cbn [length]. lia.
    + apply Z.leb_gt in B. apply IH. rewrite length_app. cbn [length]. lia.
Qed.

(** X5. Asked for at most [m] messages, with [m] positive,
    [search_new_emails] returns at most [m] of them, whatever the length
    of the listing that the mailbox returns; messages already processed
    do not count. It changes neither the processed set nor the
    checkpoint. *)
Theorem search_new_emails_cap (m : Z) (st : agent W) :
  0 < m ->
  let emails := fst (search_new_emails (Some m) st) in
  let st' := snd (search_new_emails (Some m) st) in
  Z.of_nat (length emails) <= m /\
  Forall (fun x => id x ∉ processed_emails st) emails /\
  processed_emails st' = processed_emails st /\
  last_check_time st' = last_check_time st.
Proof.
  intros Hm. cbv zeta.
  destruct (quiet_search_new_emails (Some m) st) as (P & C & _).
  destruct (search_new_emails_spec (Some m) st) as (_ & N & _).
  split; [|now repeat split].
  unfold search_new_emails. rewrite bind_eq, api_list_fst, api_list_snd.
  destruct (messages_list _ _ (world st)) as [[ms|e] w1]; cbn [fst snd];
    [|simpl; lia].
  destruct ms as [|i ms]; [simpl; lia|].
  rewrite bind_eq.
  set (st1 := Agent w1 _ _ _ _).
  pose proof (search_loop_cap m (i :: ms) [] st1 Hm) as S.
  destruct (fst (search_loop (Some m) (i :: ms) [] st1)); cbn [ret fst].
  - apply S. simpl. lia.
  - simpl. lia.
Qed.

Lemma live_loop_prefix (c : Z) (date_of : string -> Z) (old : string)
    (later newer : list string) (acc : list email_info) (st : agent W) :
  (forall i w, In i (newer ++ [old]) ->
     exists d w', messages_get i (Metadata ["From"; "Subject"; "Date"]) w = (Ok d, w') /\
       py_int (internalDate d) = Ok (date_of i)) ->
  Forall (fun i => c < date_of i) newer ->
  date_of old <= c ->
  exists new,
    fst (live_loop c (newer ++ old :: later) acc st) = Ok (acc ++ new) /\
    map id new = newer /\
    trace (snd (live_loop c (newer ++ old :: later) acc st)) =
      trace st ++
      map (fun i => ev_get i (Metadata ["From"; "Subject"; "Date"])) (newer ++ [old]).
Proof.
  intros G F O. revert acc st. induction F as [|i newer Hi F IH]; intros acc st.
  - cbn [app live_loop]. rewrite bind_eq, api_get_fst, api_get_snd.
    destruct (G old (world st)) as (d & w1 & Gm & Pm); [now left|].
    rewrite Gm. cbn [fst snd]. rewrite Pm.
    apply Z.leb_le in O. rewrite O. exists []. rewrite app_nil_r. now repeat split.
  - cbn [app live_loop]. rewrite bind_eq, api_get_fst, api_get_snd.
    destruct (G i (world st)) as (d & w1 & Gm & Pm); [now left|].
    rewrite Gm. cbn [fst snd]. rewrite Pm.
    apply Z.leb_gt in Hi. rewrite Hi.
    set (x := EmailInfo i _ _ _ (date_of i)).
    set (st1 := Agent w1 _ _ _ _).
    destruct (IH (fun j w Hj => G j w (or_intror Hj)) (acc ++ [x]) st1)
      as (new & E & M & T).
    exists (x :: new). repeat split.
    + now rewrite E, <- app_assoc.
    + simpl. now rewrite M.
    + rewrite T. subst st1. cbn [trace map app]. now rewrite <- app_assoc.
Qed.

(** X6. In live mode the scan ends at the first listed message that is
    not newer than the checkpoint, in whatever order the mailbox lists:
    the messages before it are the new ones, and the messages after it are
    neither fetched nor enumerated, even those newer than the
    checkpoint. *)
Theorem live_scan_stops_at_first_old (st : agent W) (c : Z) (w1 : W)
    (date_of : string -> Z) (newer later : list string) (old : string) :
  truthy_int (last_check_time st) = Some c ->
  messages_list unread_query 10 (world st) = (Ok (newer ++ old :: later), w1) ->
  (forall i w, In i (newer ++ [old]) ->
     exists d w', messages_get i (Metadata ["From"; "Subject"; "Date"]) w = (Ok d, w') /\
       py_int (internalDate d) = Ok (date_of i)) ->
  Forall (fun i => c < date_of i) newer ->
  date_of old <= c ->
  exists emails,
    fst (select_new_emails st) = Some emails /\
    map id emails = newer /\
    trace (snd (select_new_emails st)) =
      trace st ++ ev_list unread_query 10 ::
      map (fun i => ev_get i (Metadata ["From"; "Subject"; "Date"])) (newer ++ [old]).
Proof.
  intros T L G F O.
  rewrite select_new_emails_unfold, T. unfold api_list. rewrite L.
  set (st1 := Agent w1 _ _ _ _).
  destruct (live_loop_prefix c date_of old later newer [] st1 G F O)
    as (emails & E & M & Tr).
  simpl in E.
  destruct (live_loop c (newer ++ old :: later) [] st1) as [r st2].
  cbn [fst snd] in *. subst r. exists emails. repeat split; [exact M|].
  cbn [snd]. rewrite Tr. subst st1. cbn [trace]. now rewrite <- app_assoc.
Qed.

Lemma live_loop_broken (c : Z) (date_of : string -> Z) (bad : string)
    (later good : list string) (acc : list email_info) (st : agent W) :
  (forall i w, In i good ->
     exists d w', messages_get i (Metadata ["From"; "Subject"; "Date"]) w = (Ok d, w') /\
       py_int (internalDate d) = Ok (date_of i)) ->
  (forall w, exists e w',
     messages_get bad (Metadata ["From"; "Subject"; "Date"]) w = (Raise e, w')) ->
  Forall (fun i => c < date_of i) good ->
  exists e,
    fst (live_loop c (good ++ bad :: later) acc st) = Raise e /\
    trace (snd (live_loop c (good ++ bad :: later) acc st)) =
      trace st ++
      map (fun i => ev_get i (Metadata ["From"; "Subject"; "Date"])) (good ++ [bad]).
Proof.
  intros G B F. revert acc st. induction F as [|i good Hi F IH]; intros acc st.
  - cbn [app live_loop]. rewrite bind_eq, api_get_fst, api_get_snd.
    destruct (B (world st)) as (e & w1 & Gm). rewrite Gm. cbn [fst snd].
    now exists e.
  - cbn [app live_loop]. rewrite bind_eq, api_get_fst, api_get_snd.
    destruct (G i (world st)) as (d & w1 & Gm & Pm); [now left|].
    rewrite Gm. cbn [fst snd]. rewrite Pm.
    apply Z.leb_gt in Hi. rewrite Hi.
    set (x := EmailInfo i _ _ _ (date_of i)).
    set (st1 := Agent w1 _ _ _ _).
    destruct (IH (fun j w Hj => G j w (or_intror Hj)) (acc ++ [x]) st1) as (e & E & T).
    exists e. split; [exact E|].
    rewrite T. subst st1. cbn [trace map app]. now rewrite <- app_assoc.
Qed.

(** X7. In live mode a metadata fetch that raises ends the cycle at once:
    the new messages scanned before it are dropped with it, no message
    is handled, and the checkpoint and the processed set stay as they
    were, so that the next cycle scans the same messages again. *)
Theorem live_fetch_failure_drops_cycle (st : agent W) (c : Z) (w1 : W)
    (date_of : string -> Z) (good later : list string) (bad : string) :
  truthy_int (last_check_time st) = Some c ->
  messages_list unread_query 10 (world st) = (Ok (good ++ bad :: later), w1) ->
  (forall i w, In i good ->
     exists d w', messages_get i (Metadata ["From"; "Subject"; "Date"]) w = (Ok d, w') /\
       py_int (internalDate d) = Ok (date_of i)) ->
  (forall w, exists e w',
     messages_get bad (Metadata ["From"; "Subject"; "Date"]) w = (Raise e, w')) ->
  Forall (fun i => c < date_of i) good ->
  let st' := snd (process_new_emails st) in
  fst (select_new_emails st) = None /\
  last_check_time st' = last_check_time st /\
  processed_emails st' = processed_emails st /\
  trace st' =
    trace st ++ ev_list unread_query 10 ::
    map (fun i => ev_get i (Metadata ["From"; "Subject"; "Date"])) (good ++ [bad]).
Proof.
  intros T L G B F. cbv zeta.
  rewrite process_new_emails_unfold, select_new_emails_unfold, T.
  unfold api_list. rewrite L.
  set (st1 := Agent w1 _ _ _ _).
  destruct (live_loop_broken c date_of bad later good [] st1 G B F) as (e & E & Tr).
  pose proof (quiet_live_loop c (good ++ bad :: later) [] st1) as (P & C & _).
  destruct (live_loop c (good ++ bad :: later) [] st1) as [r st2].
  cbn [fst snd] in *. subst r. cbn [fst snd].
  repeat split; [exact C|exact P|].
  cbn [snd]. rewrite Tr. subst st1. cbn [trace]. now rewrite <- app_assoc.
Qed.

End EnumerationMore.

(** ** The pipeline: order of the steps and what is sent to the agent *)
Section PipelineMore.
Context {W : Type} `{Services W}.

Lemma agent_calls_app (tr1 tr2 : list event) :
  agent_calls (tr1 ++ tr2) = agent_calls tr1 ++ agent_calls tr2.
Proof.
  induction tr1 as [|e tr1 IH]; [reflexivity|].
  destruct e; simpl; now rewrite IH.
Qed.

Lemma mailbox_calls_app (tr1 tr2 : list event) :
  mailbox_calls (tr1 ++ tr2) = mailbox_calls tr1 ++ mailbox_calls tr2.
Proof.
  induction tr1 as [|e tr1 IH]; [reflexivity|].
  destruct e; simpl; now rewrite IH.
Qed.

Lemma fetch_stage_trace (i : string) (st : agent W) :
  trace (snd (fetch_stage i st)) =
  trace st ++ [ev_step i Fetch; ev_get i Full; ev_step i Classify; ev_sleep 1].
Proof.
  unfold fetch_stage. rewrite !bind_eq. cbn [ret snd sleep emit trace].
  rewrite get_email_details_trace. cbn [emit snd trace].
  now rewrite <- !app_assoc.
Qed.

Lemma history_loop_trace (a : string) (ms : list string) (acc : list history_entry)
    (st : agent W) :
  trace (snd (history_loop a ms acc st)) =
  trace st ++ map (fun i => ev_get i (Metadata ["From"; "To"; "Subject"; "Date"])) ms.
Proof.
  revert acc st. induction ms as [|m ms IH]; intros acc st.
  - simpl. now rewrite app_nil_r.
  - cbn [history_loop]. rewrite bind_eq, api_get_fst, api_get_snd.
    destruct (messages_get m _ (world st)) as [[d|e] w1]; cbn [fst snd].
    + rewrite IH. cbn [trace map]. now rewrite <- app_assoc.
    + destruct (is_not_found e); rewrite IH; cbn [trace map];
        now rewrite <- app_assoc.
Qed.

Lemma search_conversation_history_trace (sender_email : string) (st : agent W) :
  let address :=
    match re_search_address sender_email with
    | Some a => a
    | None => sender_email
    end in
  trace (snd (search_conversation_history sender_email st)) =
  trace st ++ ev_list ("(" +:+ address +:+ ")") 20 ::
  match fst (messages_list ("(" +:+ address +:+ ")") 20 (world st)) with
  | Ok messages =>
      map (fun i => ev_get i (Metadata ["From"; "To"; "Subject"; "Date"])) messages
  | Raise _ => []
  end.
Proof.
  intros address. unfold search_conversation_history. fold address.
  rewrite bind_eq, api_list_fst, api_list_snd.
  destruct (messages_list _ 20 (world st)) as [[ms|e] w1]; cbn [fst snd];
    [|reflexivity].
  destruct ms as [|m ms]; [reflexivity|].
  rewrite bind_eq. cbn [ret snd]. rewrite history_loop_trace. cbn [trace].
  now rewrite <- app_assoc.
Qed.

Lemma agent_calls_gets (f : format) (ms : list string) :
  agent_calls (map (fun i => ev_get i f) ms) = [].
Proof. induction ms as [|m ms IH]; [reflexivity|exact IH]. Qed.

Lemma generate_response_with_context_query (e : email) (h : history) :
  generate_response_with_context e h = run_agent_task (generate_query e h).
Proof. reflexivity. Qed.

Lemma create_draft_reply_trace (e : email) (body : string) (st : agent W) :
  trace (snd (create_draft_reply e body st)) =
  trace st ++ [ev_agent (draft_query (e_from e) (reply_subject (e_subject e)) body)].
Proof.
  unfold create_draft_reply. rewrite bind_eq.
  destruct (PyStr.any_in success_indicators _); cbn [ret snd];
    apply run_agent_task_trace.
Qed.

(** X8. For a message that the classifier wants ignored, [process_email]
    does exactly this and nothing else: it fetches the message in full,
    waits one second and sends the classification prompt; it makes no
    history lookup and no further call to the agent. *)
Theorem ignored_email_trace (idx total : nat) (info : email_info) (st : agent W) :
  PyStr.truthy (id info) = true ->
  let (new_email, st1) := fetch_stage (id info) st in
  PyStr.contains "ignore"
    (PyStr.lower (fst (run_agent_task (classify_query new_email) st1))) = true ->
  trace (snd (process_email idx total info st)) =
  trace st ++
  [ev_step (id info) Fetch; ev_get (id info) Full; ev_step (id info) Classify;
   ev_sleep 1; ev_agent (classify_query new_email)].
Proof.
  intros Hid. rewrite process_email_unfold, Hid.
  pose proof (fetch_stage_trace (id info) st) as F.
  destruct (fetch_stage (id info) st) as [new_email st1]. cbn [snd] in F.
  intros R.
  pose proof (classify_email_trace new_email st1) as C.
  pose proof (classify_email_action new_email st1) as A.
  destruct (classify_email new_email st1) as [action st2]. cbn [fst snd] in *.
  subst action. rewrite ignore_test_response, R.
  cbn [add_processed snd trace]. rewrite C, F. now rewrite <- app_assoc.
Qed.

(** X9. For a message that is not ignored, the agent receives three
    prompts, in this order: the classification prompt, the generation
    prompt built from the fetched email and the history just aggregated
    for its sender, and the draft prompt, which is addressed to that
    sender, carries the subject with its reply prefix and has for message
    the very text that the agent returned to the generation prompt. *)
Theorem reply_prompts (idx total : nat) (info : email_info) (st : agent W) :
  PyStr.truthy (id info) = true ->
  let (new_email, st1) := fetch_stage (id info) st in
  let (action, st2) := classify_email new_email st1 in
  PyStr.contains "ignore" (PyStr.lower action) = false ->
  let (history, st3) :=
    search_conversation_history (e_from new_email)
      (snd (emit (ev_step (id info) Aggregate) st2)) in
  let st4 := snd (sleep 2 (snd (emit (ev_step (id info) Generate) st3))) in
  let response := fst (run_agent_task (generate_query new_email history) st4) in
  agent_calls (trace (snd (process_email idx total info st))) =
  agent_calls (trace st) ++
  [classify_query new_email;
   generate_query new_email history;
   draft_query (e_from new_email) (reply_subject (e_subject new_email)) response].
Proof.
  intros Hid. rewrite process_email_unfold, Hid.
  pose proof (fetch_stage_trace (id info) st) as F.
  destruct (fetch_stage (id info) st) as [new_email st1]. cbn [snd] in F.
  pose proof (classify_email_trace new_email st1) as C.
  destruct (classify_email new_email st1) as [action st2]. cbn [snd] in C.
  intros R. rewrite R.
  pose proof (search_conversation_history_trace (e_from new_email)
                (snd (emit (ev_step (id info) Aggregate) st2))) as Hh.
  cbv zeta in Hh.
  unfold reply_stage. rewrite !bind_eq.
  destruct (search_conversation_history (e_from new_email)
              (snd (emit (ev_step (id info) Aggregate) st2))) as [history st3].
  cbn [fst snd] in *. cbv zeta.
  rewrite generate_response_with_context_query.
  set (st4 := snd (sleep 2 (snd (emit (ev_step (id info) Generate) st3)))).
  set (response := fst (run_agent_task (generate_query new_email history) st4)).
  set (st5 := snd (run_agent_task (generate_query new_email history) st4)).
  assert (T5 : trace st5 = trace st4 ++ [ev_agent (generate_query new_email history)])
    by apply run_agent_task_trace.
  set (st6 := snd (sleep 1 (snd (emit (ev_step (id info) Draft) st5)))).
  pose proof (create_draft_reply_trace new_email response st6) as T7.
  set (st7 := snd (create_draft_reply new_email response st6)) in *.
  assert (A1 : agent_calls (trace st1) = agent_calls (trace st))
    by (rewrite F, agent_calls_app; apply app_nil_r).
  assert (A2 : agent_calls (trace st2) =
               agent_calls (trace st) ++ [classify_query new_email])
    by (rewrite C, agent_calls_app, A1; reflexivity).
  assert (A3 : agent_calls (trace st3) = agent_calls (trace st2)).
  { rewrite Hh. cbn [emit snd trace world].
    rewrite agent_calls_app, agent_calls_app. cbn [agent_calls].
    destruct (fst (messages_list _ 20 (world st2))) as [ms|e];
      [rewrite agent_calls_gets|cbn [agent_calls]]; now rewrite !app_nil_r. }
  assert (A5 : agent_calls (trace st5) =
               agent_calls (trace st2) ++ [generate_query new_email history]).
  { rewrite T5. subst st4. cbn [sleep emit snd trace].
    rewrite !agent_calls_app, A3. cbn [agent_calls]. now rewrite !app_nil_r. }
  assert (A7 : agent_calls (trace st7) =
               agent_calls (trace st5) ++
               [draft_query (e_from new_email) (reply_subject (e_subject new_email))
                  response]).
  { rewrite T7. subst st6. cbn [sleep emit snd trace].
    rewrite !agent_calls_app. cbn [agent_calls]. now rewrite !app_nil_r. }
  assert (Fin : agent_calls (trace (snd (add_processed (id info) st7))) =
                agent_calls (trace st) ++
                [classify_query new_email; generate_query new_email history;
                 draft_query (e_from new_email) (reply_subject (e_subject new_email))
                   response]).
  { cbn [add_processed snd trace]. rewrite A7, A5, A2. now rewrite <- !app_assoc. }
  destruct (idx <? total)%nat; cbn [sleep ret snd trace]; [|exact Fin].
  rewrite agent_calls_app, Fin. apply app_nil_r.
Qed.

End PipelineMore.

(** ** A cycle as a whole *)
Section CycleMore.
Context {W : Type} `{Services W}.

Lemma process_loop_blocks (emails : list email_info) (idx total : nat) (st : agent W) :
  exists blocks,
    effect (list_to_set (handled_ids emails)) (concat blocks) st
           (snd (process_loop idx total emails st)) /\
    Forall2 (fun i b => b = short_block i \/ b = long_block i)
            (handled_ids emails) blocks.
Proof.
  revert idx st. induction emails as [|x emails IH]; intros idx st.
  - exists []. split; [|constructor]. simpl. repeat split.
    + now rewrite (left_id_L ∅ (∪)).
    + exists []. now rewrite app_nil_r.
  - cbn [process_loop]. rewrite bind_eq.
    destruct (IH (S idx) (snd (process_email idx total x st))) as (blocks & E & B).
    unfold handled_ids. cbn [map List.filter].
    destruct (PyStr.truthy (id x)) eqn:T.
    + pose proof (process_email_effect idx total x st T) as (_ & _ & E1).
      cbv zeta in E1. fold (handled_ids emails).
      eexists (_ :: blocks). split.
      * eapply effect_eq; [eapply effect_trans; [exact E1|exact E]| |reflexivity].
        rewrite list_to_set_cons. now rewrite (comm_L (∪)).
      * constructor; [|exact B].
        destruct (PyStr.contains "ignore" _); [left|right]; reflexivity.
    + rewrite (process_email_skip idx total x st T) in *. cbn [snd] in *.
      exists blocks. exact (conj E B).
Qed.

Lemma blocks_classified (ids : list string) (blocks : list (list (string * stage))) :
  Forall2 (fun i b => b = short_block i \/ b = long_block i) ids blocks ->
  map fst (List.filter (fun p => bool_decide (snd p = Classify)) (concat blocks)) = ids.
Proof.
  induction 1 as [|i b ids blocks [-> | ->] F IH]; [reflexivity| |];
    cbn [concat]; rewrite List.filter_app, map_app, IH; reflexivity.
Qed.

(** What a cycle does to the processed set and to the steps. *)
Lemma cycle_blocks (st : agent W) :
  let emails := default [] (fst (select_new_emails st)) in
  let st' := snd (process_new_emails st) in
  exists blocks,
    steps (trace st') = steps (trace st) ++ concat blocks /\
    Forall2 (fun i b => b = short_block i \/ b = long_block i)
            (handled_ids emails) blocks /\
    processed_emails st' = list_to_set (handled_ids emails) ∪ processed_emails st.
Proof.
  cbv zeta. rewrite process_new_emails_unfold.
  pose proof (select_new_emails_spec st) as (P1 & (evs1 & T1 & S1) & _).
  destruct (select_new_emails st) as [sel st1]. cbn [fst snd] in *.
  assert (Idle : exists blocks : list (list (string * stage)),
            steps (trace st1) = steps (trace st) ++ concat blocks /\
            Forall2 (fun i b => b = short_block i \/ b = long_block i) [] blocks /\
            processed_emails st1 = list_to_set [] ∪ processed_emails st).
  { exists []. split; [|split; [constructor|]].
    - rewrite T1, steps_app, S1. reflexivity.
    - rewrite P1. simpl. now rewrite (left_id_L ∅ (∪)). }
  destruct sel as [[|e es]|]; cbn [default snd]; try exact Idle.
  destruct (process_loop_blocks (e :: es) 1 (length (e :: es)) st1)
    as (blocks & (P2 & _ & evs2 & T2 & S2) & B).
  exists blocks. cbn [set_last_check_time snd trace processed_emails].
  split; [|split; [exact B|]].
  - rewrite T2, T1, !steps_app, S1, S2. now rewrite app_nil_r.
  - now rewrite P2, P1.
Qed.

(** X10. The messages of a cycle are handled one after the other, in the
    order of their enumeration: the steps of the cycle are, for each
    enumerated message with a non-empty id in turn, either fetch and
    classify, or fetch, classify, aggregate, generate and draft, with no
    step of another message in between; and the ids added to the
    processed set are exactly those messages. *)
Theorem cycle_is_sequential (st : agent W) :
  let emails := default [] (fst (select_new_emails st)) in
  let st' := snd (process_new_emails st) in
  exists blocks,
    steps (trace st') = steps (trace st) ++ concat blocks /\
    Forall2 (fun i b => b = short_block i \/ b = long_block i)
            (handled_ids emails) blocks /\
    processed_emails st' = list_to_set (handled_ids emails) ∪ processed_emails st /\
    processed_emails st ⊆ processed_emails st'.
Proof.
  cbv zeta. destruct (cycle_blocks st) as (blocks & S & B & P).
  exists blocks. repeat split; try assumption.
  rewrite P. apply union_subseteq_r.
Qed.

Lemma cycle_classified (st : agent W) :
  processed_emails st = list_to_set (step_ids Classify (trace st)) ->
  processed_emails (snd (process_new_emails st)) =
  list_to_set (step_ids Classify (trace (snd (process_new_emails st)))).
Proof.
  intros Inv. destruct (cycle_blocks st) as (blocks & S & B & P).
  rewrite P. unfold step_ids in *. rewrite S, List.filter_app, map_app.
  rewrite (blocks_classified _ _ B), list_to_set_app_L, Inv.
  apply (comm_L (∪)).
Qed.

Lemma cycle_steps_processed (st : agent W) :
  (forall s i, i ∈ step_ids s (trace st) -> i ∈ processed_emails st) ->
  forall s i, i ∈ step_ids s (trace (snd (process_new_emails st))) ->
              i ∈ processed_emails (snd (process_new_emails st)).
Proof.
  intros Inv s i. destruct (cycle_blocks st) as (blocks & S & B & P).
  rewrite P. unfold step_ids in *. rewrite S, List.filter_app, map_app.
  intros Hi. apply elem_of_app in Hi as [Hi|Hi].
  - apply elem_of_union_r. now apply (Inv s).
  - apply elem_of_union_l, elem_of_list_to_set.
    clear -B Hi. induction B as [|j b ids blocks Hb B IH]; [inversion Hi|].
    cbn [concat] in Hi. rewrite List.filter_app, map_app in Hi.
    apply elem_of_app in Hi as [Hi|Hi].
    + assert (i = j); [|subst; now left].
      destruct Hb as [-> | ->], s; simpl in Hi;
        repeat (apply elem_of_cons in Hi as [Hi|Hi]; [exact Hi|]);
        now apply elem_of_nil in Hi.
    + right. now apply IH.
Qed.

(** X11. Whenever a run started from a fresh agent has completed a number
    of cycles, the processed set is exactly the set of ids whose
    classification was announced, and a step of any kind (a draft, in
    particular) was only ever announced for an id of that set. Within a
    cycle this does not hold: a message is announced and handled before
    its id joins the set. *)
Theorem processed_set_is_classified (w : W) (interval : Z) (cycles : nat) :
  let st := snd (run_continuous interval cycles (init w)) in
  processed_emails st = list_to_set (step_ids Classify (trace st)) /\
  (forall s i, i ∈ step_ids s (trace st) -> i ∈ processed_emails st).
Proof.
  cbv zeta.
  assert (G : forall n (st : agent W),
            processed_emails st = list_to_set (step_ids Classify (trace st)) /\
            (forall s i, i ∈ step_ids s (trace st) -> i ∈ processed_emails st) ->
            processed_emails (snd (run_continuous interval n st)) =
              list_to_set (step_ids Classify (trace (snd (run_continuous interval n st)))) /\
            (forall s i, i ∈ step_ids s (trace (snd (run_continuous interval n st))) ->
                         i ∈ processed_emails (snd (run_continuous interval n st)))).
  { induction n as [|n IH]; intros st [I1 I2]; [now split|].
    cbn [run_continuous]. rewrite !bind_eq. apply IH.
    cbn [sleep snd trace processed_emails]. unfold step_ids.
    split.
    - rewrite steps_app. cbn [steps]. rewrite app_nil_r.
      now apply cycle_classified.
    - intros s i. rewrite steps_app. cbn [steps]. rewrite app_nil_r.
      now apply cycle_steps_processed. }
  apply G. split; [reflexivity|]. intros s i Hi. now apply elem_of_nil in Hi.
Qed.

End CycleMore.

(** ** History lookup, prompts and drafts *)
Section PromptsMore.
Context {W : Type} `{Services W}.

Lemma fetch_outcomes_ids (ms : list string) (w : W) :
  map fst (fetch_outcomes ms w) = ms.
Proof.
  revert w. induction ms as [|m ms IH]; intros w; [reflexivity|].
  cbn [fetch_outcomes]. destruct (messages_get m _ w). simpl. now rewrite IH.
Qed.

Lemma fetched_entries_sublist (a : string) (outs : list (string * result msg_data)) :
  map he_id (fetched_entries a outs) `sublist_of` map fst outs.
Proof.
  induction outs as [|[i [d|e]] outs IH]; simpl.
  - constructor.
  - now apply sublist_skip.
  - now apply sublist_cons.
Qed.

Lemma fetched_entries_direction (a : string) (outs : list (string * result msg_data)) :
  Forall (fun e =>
            he_direction e =
            if PyStr.contains (PyStr.lower a) (PyStr.lower (he_from e))
            then "FROM them" else "TO them (your reply)")
         (fetched_entries a outs).
Proof.
  induction outs as [|[i [d|e]] outs IH]; simpl; [constructor| |exact IH].
  constructor; [reflexivity|exact IH].
Qed.

(** X12. [search_conversation_history] asks the mailbox for one listing,
    of at most 20 messages matching the address in parentheses, and then
    for the metadata of every listed message, once each and in order,
    whether or not earlier fetches failed; it calls nothing else and
    leaves the tracker alone. The entries it returns follow the order of
    the listing, and an entry is marked as coming from the correspondent
    exactly when the address occurs in its sender header, case apart. *)
Theorem history_lookup_calls (sender_email : string) (st : agent W) :
  let address :=
    match re_search_address sender_email with
    | Some a => a
    | None => sender_email
    end in
  let h := fst (search_conversation_history sender_email st) in
  let st' := snd (search_conversation_history sender_email st) in
  trace st' =
    trace st ++ ev_list ("(" +:+ address +:+ ")") 20 ::
    match fst (messages_list ("(" +:+ address +:+ ")") 20 (world st)) with
    | Ok messages =>
        map (fun i => ev_get i (Metadata ["From"; "To"; "Subject"; "Date"])) messages
    | Raise _ => []
    end /\
  match fst (messages_list ("(" +:+ address +:+ ")") 20 (world st)) with
  | Ok messages => map he_id (all_emails h) `sublist_of` messages
  | Raise _ => all_emails h = []
  end /\
  Forall (fun e =>
            he_direction e =
            if PyStr.contains (PyStr.lower address) (PyStr.lower (he_from e))
            then "FROM them" else "TO them (your reply)")
         (all_emails h) /\
  processed_emails st' = processed_emails st /\
  last_check_time st' = last_check_time st.
Proof.
  intros address h st'.
  destruct (quiet_search_conversation_history sender_email st) as (P & C & _).
  split; [apply search_conversation_history_trace|].
  pose proof (search_conversation_history_cases sender_email st) as Cs.
  cbv zeta in Cs. fold address h in Cs.
  destruct (messages_list _ 20 (world st)) as [[ms|e] w1]; cbn [fst].
  - assert (E : all_emails h = fetched_entries address (fetch_outcomes ms w1))
      by (destruct ms; rewrite Cs; reflexivity).
    rewrite E. split; [|split; [apply fetched_entries_direction|now split]].
    rewrite <- (fetch_outcomes_ids ms w1) at 2. apply fetched_entries_sublist.
  - rewrite Cs. cbn [all_emails]. repeat split; [constructor|exact P|exact C].
Qed.

(** Lengths of the literals of a goal. *)
Ltac literal_lengths :=
  repeat match goal with
         | |- context [String.length (String ?a ?s)] =>
             let n := eval vm_compute in (String.length (String a s)) in
             change (String.length (String a s)) with n
         | |- context [String.length EmptyString] =>
             change (String.length EmptyString) with 0%nat
         end.

(** X13. The generation prompt grows with the sender and the subject
    only: of the body at most 1000 characters and of the history summary
    at most 1500 enter it, each followed by a truncation marker when cut,
    so that its length is at most 2843 characters plus the sender, the
    subject and the digits of the count. *)
Theorem generate_query_bounded (new_email : email) (conversation_history : history) :
  (String.length (generate_query new_email conversation_history) <=
   2843 + String.length (e_from new_email) + String.length (e_subject new_email)
   + String.length (pretty (total_count conversation_history)))%nat /\
  forall st : agent W,
    trace (snd (generate_response_with_context new_email conversation_history st)) =
    trace st ++ [ev_agent (generate_query new_email conversation_history)].
Proof.
  split; [|intros st; apply run_agent_task_trace].
  unfold generate_query, response_query. cbn [join_lines]. unfold PyStr.nl.
  rewrite !length_app_string.
  pose proof (slice_to_length 1000 (e_body new_email)) as Lb.
  pose proof (slice_to_length 1500 (summary conversation_history)) as Ls.
  destruct (1000 <? String.length (e_body new_email))%nat;
    destruct (1500 <? String.length (summary conversation_history))%nat eqn:S;
    rewrite ?length_app_string; literal_lengths;
    try (apply Nat.ltb_ge in S); lia.
Qed.

(** X14. The classification prompt takes at most the first 500
    characters of the body, or of the snippet when the body is empty: its
    length is at most 1687 characters plus the sender and the subject. *)
Theorem classify_query_bounded (email : email) :
  (String.length (classify_query email) <=
   1687 + String.length (e_from email) + String.length (e_subject email))%nat /\
  exists snippet,
    classify_query email = classification_prompt (e_from email) (e_subject email) snippet /\
    (String.length snippet <= 500)%nat /\
    (e_body email <> "" -> snippet = PyStr.slice_to 500 (e_body email)) /\
    (e_body email = "" -> snippet = PyStr.slice_to 500 (e_snippet email)).
Proof.
  unfold classify_query. split.
  - unfold classification_prompt. cbn [join_lines]. unfold PyStr.nl, PyStr.dq.
    rewrite !length_app_string.
    pose proof (slice_to_length 500 (e_body email)) as Lb.
    pose proof (slice_to_length 500 (e_snippet email)) as Ls.
    destruct (PyStr.truthy (e_body email)); literal_lengths; lia.
  - eexists. split; [reflexivity|]. split; [|split].
    + destruct (PyStr.truthy (e_body email)); apply slice_to_length.
    + intros Hb. now destruct (e_body email).
    + intros ->. reflexivity.
Qed.

Lemma lstrip_idem (s : string) : PyStr.lstrip (PyStr.lstrip s) = PyStr.lstrip s.
Proof.
  induction s as [|c s IH]; [reflexivity|]. cbn [PyStr.lstrip].
  destruct (PyStr.is_space c) eqn:E; [exact IH|]. cbn [PyStr.lstrip]. now rewrite E.
Qed.

Lemma rstrip_idem (s : string) : PyStr.rstrip (PyStr.rstrip s) = PyStr.rstrip s.
Proof.
  induction s as [|c s IH]; [reflexivity|]. cbn [PyStr.rstrip].
  destruct (PyStr.rstrip s) as [|a r] eqn:R.
  - destruct (PyStr.is_space c) eqn:E; [reflexivity|].
    cbn [PyStr.rstrip]. now rewrite E.
  - cbn [PyStr.rstrip] in *. now rewrite IH.
Qed.

Lemma rstrip_lstrip (s : string) :
  PyStr.rstrip (PyStr.lstrip s) = PyStr.lstrip (PyStr.rstrip s).
Proof.
  induction s as [|c s IH]; [reflexivity|].
  cbn [PyStr.lstrip]. destruct (PyStr.is_space c) eqn:E.
  - rewrite IH. cbn [PyStr.rstrip].
    destruct (PyStr.rstrip s) as [|a r]; rewrite ?E; cbn [PyStr.lstrip];
      now rewrite ?E.
  - cbn [PyStr.rstrip].
    destruct (PyStr.rstrip s) as [|a r]; rewrite ?E; cbn [PyStr.lstrip];
      now rewrite E.
Qed.

Lemma strip_idem (s : string) : PyStr.strip (PyStr.strip s) = PyStr.strip s.
Proof.
  unfold PyStr.strip. now rewrite rstrip_lstrip, rstrip_idem, lstrip_idem.
Qed.

(** X15. What [classify_email] returns is in normal form: lowering its
    case or stripping it again changes nothing, so that it has no capital
    letter and no white space at either end. The method makes one call to
    the agent, with the classification prompt, and touches nothing
    else. *)
Theorem classify_email_normalized (email : email) (st : agent W) :
  let action := fst (classify_email email st) in
  let st' := snd (classify_email email st) in
  PyStr.lower action = action /\
  PyStr.strip action = action /\
  trace st' = trace st ++ [ev_agent (classify_query email)] /\
  processed_emails st' = processed_emails st /\
  last_check_time st' = last_check_time st.
Proof.
  cbv zeta. rewrite classify_email_action.
  destruct (quiet_classify_email email st) as (P & C & _).
  split; [apply PyStrFacts.lower_idem|].
  split; [rewrite PyStrFacts.lower_strip; apply strip_idem|].
  split; [apply classify_email_trace|now split].
Qed.

(** X16. The draft prompt that [create_draft_reply] sends, its one call
    to the agent, carries a subject that starts with [Re:]: the subject of
    the email when it starts so already, and that subject after [Re: ]
    otherwise; normalising twice adds no second prefix. *)
Theorem draft_subject_prefixed (original_email : email) (response_body : string)
    (st : agent W) :
  let subject := reply_subject (e_subject original_email) in
  trace (snd (create_draft_reply original_email response_body st)) =
    trace st ++ [ev_agent (draft_query (e_from original_email) subject response_body)] /\
  PyStr.startswith subject "Re:" = true /\
  reply_subject subject = subject /\
  (PyStr.startswith (e_subject original_email) "Re:" = true ->
   subject = e_subject original_email) /\
  (PyStr.startswith (e_subject original_email) "Re:" = false ->
   subject = "Re: " +:+ e_subject original_email).
Proof.
  cbv zeta. split; [apply create_draft_reply_trace|].
  assert (S : PyStr.startswith (reply_subject (e_subject original_email)) "Re:" = true).
  { unfold reply_subject.
    destruct (PyStr.startswith (e_subject original_email) "Re:") eqn:E;
      [exact E|reflexivity]. }
  split; [exact S|]. split; [|split].
  - unfold reply_subject at 1. now rewrite S.
  - intros E. unfold reply_subject. now rewrite E.
  - intros E. unfold reply_subject. now rewrite E.
Qed.

End PromptsMore.

(** ** The further properties on the example mailboxes *)

(** The parts of [sample_message] hold no usable plain text: its own body
    is not looked at. *)
Lemma get_email_details_parts_witness :
  e_body (fst (@get_email_details nat (scripted detailed) "d1" (init 0%nat)))
    = "No body content" /\
  e_subject (fst (@get_email_details nat (scripted detailed) "d1" (init 0%nat)))
    = "Hello".
Proof.
  split; [|reflexivity].
  destruct (@get_email_details_parts nat (scripted detailed) "d1" (init 0%nat)
              sample_message 1%nat
              (Payload
                 [Header "FROM" "ann@example.org"; Header "Subject" "Hello";
                  Header "subject" "Again"]
                 (Some [Part (Some "text/html") "aGk"; Part (Some "text/plain") ""])
                 (Some "Ym9keQ"))
              [Part (Some "text/html") "aGk"; Part (Some "text/plain") ""]
              eq_refl eq_refl eq_refl) as [A _].
  apply A. constructor; [left; discriminate|].
  constructor; [right; reflexivity|constructor].
Defined.

(** Seven unread messages are listed; the bootstrap takes five. *)
Lemma search_new_emails_cap_witness :
  map id (fst (@search_new_emails nat (scripted crowded) (Some 5) (init 0%nat)))
    = ["c7"; "c6"; "c5"; "c4"; "c3"] /\
  Z.of_nat (length (fst (@search_new_emails nat (scripted crowded) (Some 5)
                           (init 0%nat)))) <= 5.
Proof.
  split; [vm_compute; reflexivity|].
  destruct (@search_new_emails_cap nat (scripted crowded) 5 (init 0%nat))
    as (L & _); [lia|exact L].
Defined.

(** With checkpoint 300 and the listing 500, 250, 400, 300, only the first
    message is new: the one dated 400 is missed. *)
Lemma live_scan_stops_at_first_old_witness :
  exists emails,
    fst (@select_new_emails nat (scripted shuffled) (Agent 0%nat ∅ (Some 300) None []))
      = Some emails /\
    map id emails = ["m500"] /\
    300 < example_date "m400".
Proof.
  destruct (@live_scan_stops_at_first_old nat (scripted shuffled)
              (Agent 0%nat ∅ (Some 300) None []) 300 1%nat example_date
              ["m500"] ["m400"; "m300"] "m250")
    as (emails & E & M & _).
  - reflexivity.
  - reflexivity.
  - intros i w _. exists (dated (example_date i)), (S w). now split.
  - constructor; [reflexivity|constructor].
  - discriminate.
  - exists emails. split; [exact E|]. split; [exact M|reflexivity].
Defined.

(** With checkpoint 300, the fetch of the second message fails: the first
    one, although new, is not handled in this cycle. *)
Lemma live_fetch_failure_drops_cycle_witness :
  let st := Agent 0%nat ∅ (Some 300) None [] in
  let st' := snd (@process_new_emails nat (scripted broken_fetch) st) in
  last_check_time st' = Some 300 /\
  processed_emails st' = ∅ /\
  steps (trace st') = [].
Proof.
  destruct (@live_fetch_failure_drops_cycle nat (scripted broken_fetch)
              (Agent 0%nat ∅ (Some 300) None []) 300 1%nat example_date
              ["m500"] ["m300"; "m250"] "m400")
    as (_ & C & P & T).
  - reflexivity.
  - reflexivity.
  - intros i w [<-|[]]. exists (dated 500), (S w). now split.
  - intros w. now exists "HttpError 500", (S w).
  - constructor; [reflexivity|constructor].
  - cbv zeta. split; [exact C|]. split; [exact P|]. rewrite T. reflexivity.
Defined.

(** The agent answers [ Ignore ]: one fetch, one prompt, nothing more. *)
Lemma ignored_email_trace_witness :
  let info := EmailInfo "m500" "Unknown" "No Subject" "Unknown" 500 in
  let st' := snd (@process_email nat (scripted ignoring) 1 1 info (init 0%nat)) in
  mailbox_calls (trace st') = [ev_get "m500" Full] /\
  length (agent_calls (trace st')) = 1%nat.
Proof.
  cbv zeta.
  pose proof (@ignored_email_trace nat (scripted ignoring) 1 1
                (EmailInfo "m500" "Unknown" "No Subject" "Unknown" 500)
                (init 0%nat) eq_refl) as T.
  destruct (@fetch_stage nat (scripted ignoring) _ _) as [new_email st1].
  rewrite (T eq_refl). split; reflexivity.
Defined.

(** The agent answers [process]: three prompts are sent for the message. *)
Lemma reply_prompts_witness :
  let info := EmailInfo "m500" "Unknown" "No Subject" "Unknown" 500 in
  let st' := snd (@process_email nat (scripted steady) 1 1 info (init 0%nat)) in
  length (agent_calls (trace st')) = 3%nat.
Proof.
  cbv zeta.
  pose proof (@reply_prompts nat (scripted steady) 1 1
                (EmailInfo "m500" "Unknown" "No Subject" "Unknown" 500)
                (init 0%nat) eq_refl) as T.
  destruct (@fetch_stage nat (scripted steady) _ _) as [new_email st1].
  pose proof (@classify_email_action nat (scripted steady) new_email st1) as A.
  destruct (@classify_email nat (scripted steady) new_email st1) as [action st2].
  cbn [fst] in A. subst action. specialize (T eq_refl).
  destruct (@search_conversation_history nat (scripted steady) _ _) as [history st3].
  rewrite T. reflexivity.
Defined.

(** ** Bootstrap enumeration: what is fetched and what a failure costs *)
Section BootstrapMore.
Context {W : Type} `{Services W}.

Lemma search_loop_fetches (mx : option Z) (ms : list string) (acc : list email_info)
    (st : agent W) :
  exists fetched,
    trace (snd (search_loop mx ms acc st)) =
      trace st ++ map (fun i => ev_get i (Metadata ["From"; "Subject"; "Date"])) fetched /\
    fetched `sublist_of` ms /\
    Forall (fun i => i ∉ processed_emails st) fetched.
Proof.
  revert acc st. induction ms as [|i ms IH]; intros acc st.
  - exists []. simpl. rewrite app_nil_r. repeat split; constructor.
  - cbn [search_loop]. rewrite bind_eq. unfold is_processed at 1 2. cbn [fst snd].
    destruct (bool_decide (i ∈ processed_emails st)) eqn:B.
    + destruct (IH acc st) as (fetched & T & S & F).
      exists fetched. repeat split; [exact T|now apply sublist_cons|exact F].
    + apply bool_decide_eq_false in B.
      rewrite bind_eq, api_get_fst, api_get_snd.
      assert (One : forall w1 : W,
                exists fetched,
                  trace (Agent w1 (processed_emails st) (last_check_time st)
                           (last_processed_id st)
                           (trace st ++ [ev_get i (Metadata ["From"; "Subject"; "Date"])]))
                  = trace st ++
                    map (fun i => ev_get i (Metadata ["From"; "Subject"; "Date"])) fetched /\
                  fetched `sublist_of` i :: ms /\
                  Forall (fun i => i ∉ processed_emails st) fetched).
      { intros w1. exists [i]. repeat split.
        - apply sublist_skip, sublist_nil_l.
        - now constructor. }
      assert (More : forall (w1 : W) acc',
                exists fetched,
                  trace (snd (search_loop mx ms acc'
                     (Agent w1 (processed_emails st) (last_check_time st)
                        (last_processed_id st)
                        (trace st ++ [ev_get i (Metadata ["From"; "Subject"; "Date"])]))))
                  = trace st ++
                    map (fun i => ev_get i (Metadata ["From"; "Subject"; "Date"])) fetched /\
                  fetched `sublist_of` i :: ms /\
                  Forall (fun i => i ∉ processed_emails st) fetched).
      { intros w1 acc'.
        destruct (IH acc' (Agent w1 (processed_emails st) (last_check_time st)
                             (last_processed_id st)
                             (trace st ++ [ev_get i (Metadata ["From"; "Subject"; "Date"])])))
          as (fetched & T & S & F).
        exists (i :: fetched). repeat split.
        - rewrite T. cbn [trace map]. now rewrite <- app_assoc.
        - now apply sublist_skip.
        - now constructor. }
      destruct (messages_get i _ (world st)) as [[d|e] w1]; cbn [fst snd];
        [|apply One].
      destruct (py_int (internalDate d)) as [z|e]; [|apply One].
      destruct (truthy_int mx) as [k|]; [|apply More].
      destruct (k <=? _); [apply One|apply More].
Qed.

(** X17. [search_new_emails] makes one listing call and then fetches
    metadata only for listed messages that are not in the processed set,
    in the order of the listing: a processed message costs no call to the
    mailbox. *)
Theorem search_new_emails_fetches (max_results : option Z) (st : agent W) :
  let st' := snd (search_new_emails max_results st) in
  exists limit fetched,
    trace st' =
      trace st ++ ev_list unread_query limit ::
      map (fun i => ev_get i (Metadata ["From"; "Subject"; "Date"])) fetched /\
    limit = match truthy_int max_results with Some m => m | None => 50 end /\
    Forall (fun i => i ∉ processed_emails st) fetched /\
    match fst (messages_list unread_query limit (world st)) with
    | Ok messages => fetched `sublist_of` messages
    | Raise _ => fetched = []
    end.
Proof.
  cbv zeta.
  exists (match truthy_int max_results with Some m => m | None => 50 end).
  unfold search_new_emails.
  rewrite bind_eq, api_list_fst, api_list_snd.
  destruct (messages_list _ _ (world st)) as [[ms|e] w1]; cbn [fst snd].
  2:{ exists []. split; [reflexivity|]. split; [reflexivity|].
      split; [constructor|reflexivity]. }
  destruct ms as [|i ms].
  { exists []. split; [reflexivity|]. split; [reflexivity|].
    split; [constructor|apply sublist_nil_l]. }
  rewrite bind_eq.
  set (st1 := Agent w1 _ _ _ _).
  destruct (search_loop_fetches max_results (i :: ms) [] st1) as (fetched & T & S & F).
  exists fetched.
  assert (E : trace (snd (search_loop max_results (i :: ms) [] st1)) =
              trace st ++ ev_list unread_query
                (match truthy_int max_results with Some m => m | None => 50 end) ::
              map (fun i => ev_get i (Metadata ["From"; "Subject"; "Date"])) fetched).
  { rewrite T. subst st1. cbn [trace]. now rewrite <- app_assoc. }
  destruct (fst (search_loop max_results (i :: ms) [] st1)); cbn [ret snd];
    repeat split; assumption.
Qed.

Lemma search_loop_broken (m : Z) (bad : string) (later good : list string)
    (acc : list email_info) (st : agent W) :
  (forall i w, In i good ->
     exists d w' z, messages_get i (Metadata ["From"; "Subject"; "Date"]) w = (Ok d, w') /\
       py_int (internalDate d) = Ok z) ->
  (forall w, exists e w',
     messages_get bad (Metadata ["From"; "Subject"; "Date"]) w = (Raise e, w')) ->
  Forall (fun i => i ∉ processed_emails st) (good ++ [bad]) ->
  Z.of_nat (length acc + length good) < m ->
  exists e st',
    search_loop (Some m) (good ++ bad :: later) acc st = (Raise e, st') /\
    trace st' =
      trace st ++
      map (fun i => ev_get i (Metadata ["From"; "Subject"; "Date"])) (good ++ [bad]).
Proof.
  intros G B. revert acc st. induction good as [|i good IH]; intros acc st F L.
  - cbn [app search_loop]. rewrite bind_eq. unfold is_processed at 1 2. cbn [fst snd].
    inversion F as [|? ? Hb _]; subst.
    rewrite bool_decide_eq_false_2 by exact Hb.
    rewrite bind_eq, api_get_fst, api_get_snd.
    destruct (B (world st)) as (e & w1 & Gm). rewrite Gm. cbn [fst snd ret].
    eexists. eexists. split; reflexivity.
  - cbn [app search_loop]. rewrite bind_eq. unfold is_processed at 1 2. cbn [fst snd].
    inversion F as [|? ? Hi F']; subst.
    rewrite bool_decide_eq_false_2 by exact Hi.
    rewrite bind_eq, api_get_fst, api_get_snd.
    destruct (G i (world st)) as (d & w1 & z & Gm & Pm); [now left|].
    rewrite Gm. cbn [fst snd]. rewrite Pm.
    cbn [length] in L.
    assert (T : truthy_int (Some m) = Some m)
      by (destruct m; simpl; try lia; reflexivity).
    rewrite T. rewrite length_app. cbn [length].
    destruct (m <=? Z.of_nat (length acc + 1)) eqn:Le;
      [apply Z.leb_le in Le; lia|].
    set (st1 := Agent w1 _ _ _ _).
    destruct (IH (fun j w Hj => G j w (or_intror Hj))
                (acc ++ [EmailInfo i
                           (header_value (headers_of d) "from" "Unknown")
                           (header_value (headers_of d) "subject" "No Subject")
                           (header_value (headers_of d) "date" "Unknown") z]) st1)
      as (e & st' & R & Tr).
    + exact F'.
    + rewrite length_app. cbn [length]. lia.
    + exists e, st'. split; [exact R|]. rewrite Tr. subst st1. cbn [trace map app].
      now rewrite <- app_assoc.
Qed.

(** X18. In bootstrap mode a metadata fetch that raises before five
    messages were collected makes [search_new_emails] return nothing at
    all: the messages fetched before it are dropped and the cycle handles
    no message. As for an empty inbox, the clock is then read once, right
    after the failing fetch, and the time it shows becomes the
    checkpoint. *)
Theorem bootstrap_fetch_failure_drops_all (st : agent W) (w1 : W)
    (good later : list string) (bad : string) :
  truthy_int (last_check_time st) = None ->
  messages_list unread_query 5 (world st) = (Ok (good ++ bad :: later), w1) ->
  (forall i w, In i good ->
     exists d w' z, messages_get i (Metadata ["From"; "Subject"; "Date"]) w = (Ok d, w') /\
       py_int (internalDate d) = Ok z) ->
  (forall w, exists e w',
     messages_get bad (Metadata ["From"; "Subject"; "Date"]) w = (Raise e, w')) ->
  Forall (fun i => i ∉ processed_emails st) (good ++ [bad]) ->
  (length good < 5)%nat ->
  let st1 := snd (search_new_emails (Some 5) st) in
  let st' := snd (process_new_emails st) in
  fst (search_new_emails (Some 5) st) = [] /\
  fst (select_new_emails st) = None /\
  last_check_time st' = Some (fst (time_ms (world st1))) /\
  processed_emails st' = processed_emails st /\
  trace st' =
    trace st ++ ev_list unread_query 5 ::
    map (fun i => ev_get i (Metadata ["From"; "Subject"; "Date"])) (good ++ [bad])
    ++ [ev_time].
Proof.
  intros T L G B F Len. cbv zeta.
  assert (E : fst (search_new_emails (Some 5) st) = [] /\
              trace (snd (search_new_emails (Some 5) st)) =
                trace st ++ ev_list unread_query 5 ::
                map (fun i => ev_get i (Metadata ["From"; "Subject"; "Date"]))
                  (good ++ [bad])).
  { unfold search_new_emails. rewrite bind_eq, api_list_fst, api_list_snd.
    cbn [truthy_int]. rewrite L. cbn [fst snd].
    set (st0 := Agent w1 _ _ _ _).
    destruct (search_loop_broken 5 bad later good [] st0 G B F)
      as (e & st1 & R & Tr); [simpl; lia|].
    destruct (good ++ bad :: later) eqn:Ms; [now destruct good|].
    rewrite bind_eq, R. cbn [ret fst snd]. split; [reflexivity|].
    rewrite Tr. subst st0. cbn [trace]. now rewrite <- app_assoc. }
  destruct E as [E Tr].
  pose proof (quiet_search_new_emails (Some 5) st) as (P & _).
  split; [exact E|].
  rewrite process_new_emails_unfold, select_new_emails_unfold, T.
  destruct (search_new_emails (Some 5) st) as [emails st1].
  cbn [fst snd] in *. subst emails.
  unfold now_ms. destruct (time_ms (world st1)) as [t w2].
  cbn [fst snd set_last_check_time last_check_time processed_emails trace].
  split; [reflexivity|]. split; [reflexivity|]. split; [exact P|].
  rewrite Tr. rewrite <- !app_assoc. reflexivity.
Qed.

End BootstrapMore.

(** The first cycle on the example inbox with one failing fetch and a
    clock that advances: nothing is handled, and the checkpoint is the
    time that the clock shows after the listing and the two fetches,
    later than every message of the inbox. *)
Lemma bootstrap_fetch_failure_drops_all_witness :
  let st' := snd (@process_new_emails nat (scripted ticking) (init 0%nat)) in
  fst (@search_new_emails nat (scripted ticking) (Some 5) (init 0%nat)) = [] /\
  last_check_time st' = Some 1003 /\
  trace st' =
    [ev_list unread_query 5;
     ev_get "m500" (Metadata ["From"; "Subject"; "Date"]);
     ev_get "m400" (Metadata ["From"; "Subject"; "Date"]);
     ev_time].
Proof.
  destruct (@bootstrap_fetch_failure_drops_all nat (scripted ticking)
              (init 0%nat) 1%nat ["m500"] ["m300"; "m250"] "m400")
    as (E & _ & C & _ & Tr).
  - reflexivity.
  - reflexivity.
  - intros i w [<-|[]]. exists (dated 500), (S w), 500. now split.
  - intros w. now exists "HttpError 500", (S w).
  - repeat constructor; apply not_elem_of_empty.
  - simpl. lia.
  - cbv zeta. split; [exact E|]. split; [exact C|exact Tr].
Defined.

(** The agent of [ignoring] streams one event of one message: its content
    is what [run_agent_task] returns. *)
Lemma run_agent_task_result_witness :
  exists ev m,
    last [[Content " Ignore "]] = Some ev /\ last ev = Some m /\
    fst (@run_agent_task nat (scripted ignoring) "q" (init 0%nat)) = message_text m.
Proof.
  destruct (@run_agent_task_result nat (scripted ignoring) "q" (init 0%nat))
    as (_ & _ & _ & A & _).
  apply A. constructor; [discriminate|constructor].
Defined.

(** Of the two subject headers of [sample_message] the first is read,
    although its name is capitalised. *)
Lemma header_value_lookup_witness :
  header_value
    [Header "FROM" "ann@example.org"; Header "Subject" "Hello";
     Header "subject" "Again"] "subject" "No Subject" = "Hello".
Proof.
  destruct (header_value_lookup
              [Header "FROM" "ann@example.org"; Header "Subject" "Hello";
               Header "subject" "Again"] "subject" "No Subject") as (_ & A & _).
  apply (A [Header "FROM" "ann@example.org"] (Header "Subject" "Hello")
           [Header "subject" "Again"]).
  - reflexivity.
  - constructor; [reflexivity|constructor].
  - reflexivity.
Defined.

(** ** Every call to the agent belongs to one announced step *)
Section Attribution.
Context {W : Type} `{Services W}.

Lemma attributed_app (cur : option (string * stage)) (tr1 tr2 : list event) :
  attributed cur (tr1 ++ tr2) =
  attributed cur tr1 ++ attributed (current cur tr1) tr2.
Proof.
  revert cur. induction tr1 as [|e tr1 IH]; intros cur; [reflexivity|].
  destruct e; cbn [app attributed current]; rewrite IH; reflexivity.
Qed.

Lemma announced_calls_app (tr1 tr2 : list event) :
  announced_calls (tr1 ++ tr2) = announced_calls tr1 ++ announced_calls tr2.
Proof. unfold announced_calls. now rewrite steps_app, List.filter_app. Qed.

Lemma attributed_silent (cur : option (string * stage)) (evs : list event) :
  steps evs = [] -> agent_calls evs = [] ->
  attributed cur evs = [] /\ current cur evs = cur.
Proof.
  induction evs as [|e evs IH]; intros S A; [now split|].
  destruct e; cbn [steps agent_calls attributed current] in *;
    try discriminate; now apply IH.
Qed.

Lemma accounted_app (evs1 evs2 : list event) :
  accounted evs1 -> accounted evs2 -> accounted (evs1 ++ evs2).
Proof.
  intros A1 A2 cur.
  now rewrite attributed_app, announced_calls_app, map_app, A1, A2.
Qed.

Lemma accounted_silent (evs : list event) :
  steps evs = [] -> agent_calls evs = [] -> accounted evs.
Proof.
  intros S A cur. destruct (attributed_silent cur evs S A) as [E _].
  rewrite E. unfold announced_calls. now rewrite S.
Qed.

(** An announcement for a mailbox lookup, and the lookup. *)
Lemma accounted_lookup (i : string) (s : stage) (evs : list event) :
  agent_stage s = false -> steps evs = [] -> agent_calls evs = [] ->
  accounted (ev_step i s :: evs).
Proof.
  intros St S A cur. cbn [attributed].
  destruct (attributed_silent (Some (i, s)) evs S A) as [E _]. rewrite E.
  unfold announced_calls. cbn [steps List.filter snd]. now rewrite St, S.
Qed.

Lemma silent_step_refl (st : agent W) : silent_step st st.
Proof. exists []. now rewrite app_nil_r. Qed.

Lemma silent_step_trans (st1 st2 st3 : agent W) :
  silent_step st1 st2 -> silent_step st2 st3 -> silent_step st1 st3.
Proof.
  intros (evs1 & T1 & S1 & A1) (evs2 & T2 & S2 & A2).
  exists (evs1 ++ evs2). split; [now rewrite T2, T1, app_assoc|].
  split; [now rewrite steps_app, S1, S2|now rewrite agent_calls_app, A1, A2].
Qed.

Lemma silent_ret {A : Type} (a : A) : silent (ret a : M W A).
Proof. intros st. apply silent_step_refl. Qed.

Lemma silent_bind {A B : Type} (m : M W A) (k : A -> M W B) :
  silent m -> (forall a, silent (k a)) -> silent (bind m k).
Proof.
  intros Hm Hk st. rewrite bind_eq.
  eapply silent_step_trans; [apply Hm|apply Hk].
Qed.

Lemma silent_one (st : agent W) (w : W) (c : option Z) (e : event) :
  steps [e] = [] -> agent_calls [e] = [] ->
  silent_step st (Agent w (processed_emails st) c
                          (last_processed_id st) (trace st ++ [e])).
Proof. intros S A. now exists [e]. Qed.

Lemma silent_api_list (q : string) (n : Z) : silent (api_list q n).
Proof.
  intros st. unfold api_list. destruct (messages_list q n (world st)).
  now apply silent_one.
Qed.

Lemma silent_api_get (i : string) (f : format) : silent (api_get i f).
Proof.
  intros st. unfold api_get. destruct (messages_get i f (world st)).
  now apply silent_one.
Qed.

Lemma silent_now_ms : silent now_ms.
Proof.
  intros st. unfold now_ms. destruct (time_ms (world st)).
  now apply silent_one.
Qed.

Lemma silent_sleep (n : Z) : silent (sleep n).
Proof. intros st. now apply silent_one. Qed.

Lemma silent_is_processed (i : string) : silent (is_processed (W:=W) i).
Proof. intros st. apply silent_step_refl. Qed.

Lemma silent_get_last_check_time : silent (get_last_check_time (W:=W)).
Proof. intros st. apply silent_step_refl. Qed.

Lemma silent_set_last_check_time (t : Z) : silent (set_last_check_time (W:=W) t).
Proof. intros st. exists []. cbn [set_last_check_time snd trace]. now rewrite app_nil_r. Qed.

Create HintDb silent.
#[local] Hint Resolve silent_ret silent_api_list silent_api_get silent_now_ms
  silent_sleep silent_is_processed silent_get_last_check_time
  silent_set_last_check_time : silent.

(** Solves [silent] goals of programs built from binds and matches. *)
Ltac silent_tac :=
  repeat first
    [ progress auto with silent
    | apply silent_bind; [|intros ?]
    | match goal with
      | |- silent (match ?x with _ => _ end) => destruct x
      | |- silent (if ?x then _ else _) => destruct x
      end ].

Lemma silent_search_loop (mx : option Z) (ms : list string) (acc : list email_info) :
  silent (search_loop mx ms acc).
Proof.
  revert acc. induction ms as [|m ms IH]; intros acc; cbn [search_loop]; silent_tac.
Qed.

Lemma silent_search_new_emails (mx : option Z) : silent (search_new_emails mx).
Proof.
  unfold search_new_emails. pose proof silent_search_loop. silent_tac.
Qed.

Lemma silent_live_loop (c : Z) (ms : list string) (acc : list email_info) :
  silent (live_loop c ms acc).
Proof.
  revert acc. induction ms as [|m ms IH]; intros acc; cbn [live_loop]; silent_tac.
Qed.

Lemma silent_select_new_emails : silent (select_new_emails (W:=W)).
Proof.
  unfold select_new_emails.
  pose proof silent_search_new_emails. pose proof silent_live_loop. silent_tac.
Qed.

Lemma silent_get_email_details (i : string) : silent (get_email_details i).
Proof. unfold get_email_details. silent_tac. Qed.

Lemma silent_history_loop (a : string) (ms : list string) (acc : list history_entry) :
  silent (history_loop a ms acc).
Proof.
  revert acc. induction ms as [|m ms IH]; intros acc; cbn [history_loop]; silent_tac.
Qed.

Lemma silent_search_conversation_history (a : string) :
  silent (search_conversation_history a).
Proof.
  unfold search_conversation_history. pose proof silent_history_loop. silent_tac.
Qed.

Lemma linked_refl (st : agent W) : linked st st.
Proof.
  exists []. split; [now rewrite app_nil_r|]. now apply accounted_silent.
Qed.

Lemma linked_trans (st1 st2 st3 : agent W) :
  linked st1 st2 -> linked st2 st3 -> linked st1 st3.
Proof.
  intros (evs1 & T1 & A1) (evs2 & T2 & A2). exists (evs1 ++ evs2).
  split; [now rewrite T2, T1, app_assoc|now apply accounted_app].
Qed.

Lemma linked_silent (st st' : agent W) : silent_step st st' -> linked st st'.
Proof.
  intros (evs & T & S & A). exists evs. split; [exact T|].
  now apply accounted_silent.
Qed.

Lemma linked_eq (st st' : agent W) : trace st' = trace st -> linked st st'.
Proof.
  intros T. exists []. split; [now rewrite app_nil_r|]. now apply accounted_silent.
Qed.

(** An announcement of a stage that calls the agent, a pause and one
    call. *)
Lemma linked_call (i : string) (s : stage) (n : Z) (q : string) (st st' : agent W) :
  agent_stage s = true ->
  trace st' = trace st ++ [ev_step i s; ev_sleep n; ev_agent q] ->
  linked st st'.
Proof.
  intros St T. eexists. split; [exact T|].
  intros cur. unfold announced_calls. cbn [attributed steps List.filter snd].
  now rewrite St.
Qed.

(** An announcement of a stage that calls no agent, and what it does in
    silence. *)
Lemma linked_lookup (i : string) (s : stage) (st st1 st' : agent W) :
  agent_stage s = false ->
  trace st1 = trace st ++ [ev_step i s] ->
  silent_step st1 st' ->
  linked st st'.
Proof.
  intros St T (evs & T' & S & A). exists (ev_step i s :: evs).
  split; [rewrite T', T; now rewrite <- app_assoc|].
  now apply accounted_lookup.
Qed.

(** The handling of one message. *)
Lemma process_email_linked (idx total : nat) (info : email_info) (st : agent W) :
  linked st (snd (process_email idx total info st)).
Proof.
  rewrite process_email_unfold.
  destruct (PyStr.truthy (id info)); [|apply linked_refl].
  assert (F : exists st0 new_email,
            fetch_stage (id info) st =
              (new_email, snd (sleep 1 (snd (emit (ev_step (id info) Classify) st0)))) /\
            linked st st0).
  { unfold fetch_stage. rewrite !bind_eq.
    exists (snd (get_email_details (id info) (snd (emit (ev_step (id info) Fetch) st)))).
    eexists. split; [reflexivity|].
    apply (linked_lookup (id info) Fetch st (snd (emit (ev_step (id info) Fetch) st)));
      [reflexivity|reflexivity|].
    apply silent_get_email_details. }
  destruct F as (st0 & new_email & -> & L0).
  set (st1 := snd (sleep 1 (snd (emit (ev_step (id info) Classify) st0)))).
  pose proof (classify_email_trace new_email st1) as C.
  destruct (classify_email new_email st1) as [action st2]. cbn [snd] in C.
  assert (L2 : linked st st2).
  { eapply linked_trans; [exact L0|].
    apply (linked_call (id info) Classify 1 (classify_query new_email));
      [reflexivity|].
    rewrite C. subst st1. cbn [sleep emit snd trace]. now rewrite <- !app_assoc. }
  destruct (PyStr.contains "ignore" (PyStr.lower action)).
  { eapply linked_trans; [exact L2|]. now apply linked_eq. }
  unfold reply_stage. rewrite !bind_eq.
  set (sta := snd (emit (ev_step (id info) Aggregate) st2)).
  pose proof (silent_search_conversation_history (e_from new_email) sta) as Hh.
  destruct (search_conversation_history (e_from new_email) sta) as [history st3].
  cbn [fst snd] in *.
  assert (L3 : linked st st3).
  { eapply linked_trans; [exact L2|].
    now apply (linked_lookup (id info) Aggregate st2 sta st3). }
  set (st4 := snd (sleep 2 (snd (emit (ev_step (id info) Generate) st3)))).
  pose proof (run_agent_task_trace (generate_query new_email history) st4) as T5.
  rewrite <- generate_response_with_context_query in T5.
  set (response := fst (generate_response_with_context new_email history st4)).
  set (st5 := snd (generate_response_with_context new_email history st4)) in *.
  assert (L5 : linked st st5).
  { eapply linked_trans; [exact L3|].
    apply (linked_call (id info) Generate 2 (generate_query new_email history));
      [reflexivity|].
    rewrite T5. subst st4. cbn [sleep emit snd trace]. now rewrite <- !app_assoc. }
  set (st6 := snd (sleep 1 (snd (emit (ev_step (id info) Draft) st5)))).
  pose proof (create_draft_reply_trace new_email response st6) as T7.
  set (st7 := snd (create_draft_reply new_email response st6)) in *.
  assert (L7 : linked st st7).
  { eapply linked_trans; [exact L5|].
    eapply (linked_call (id info) Draft 1); [reflexivity|].
    rewrite T7. subst st6. cbn [sleep emit snd trace]. now rewrite <- !app_assoc. }
  eapply linked_trans; [exact L7|].
  eapply linked_trans; [apply (linked_eq st7 (snd (add_processed (id info) st7)));
                        reflexivity|].
  destruct (idx <? total)%nat; [|apply linked_refl].
  apply linked_silent, silent_sleep.
Qed.

Lemma process_loop_linked (emails : list email_info) (idx total : nat) (st : agent W) :
  linked st (snd (process_loop idx total emails st)).
Proof.
  revert idx st. induction emails as [|e emails IH]; intros idx st.
  - apply linked_refl.
  - cbn [process_loop]. rewrite bind_eq.
    eapply linked_trans; [apply process_email_linked|apply IH].
Qed.

Lemma cycle_linked (st : agent W) : linked st (snd (process_new_emails st)).
Proof.
  rewrite process_new_emails_unfold.
  pose proof (silent_select_new_emails st) as S.
  destruct (select_new_emails st) as [sel st1]. cbn [snd] in S.
  apply linked_silent in S.
  destruct sel as [[|e es]|]; cbn [snd]; try exact S.
  eapply linked_trans; [exact S|].
  eapply linked_trans; [apply process_loop_linked|]. now apply linked_eq.
Qed.

Lemma run_continuous_linked (interval : Z) (cycles : nat) (st : agent W) :
  linked st (snd (run_continuous interval cycles st)).
Proof.
  revert st. induction cycles as [|n IH]; intros st; [apply linked_refl|].
  cbn [run_continuous]. rewrite !bind_eq.
  eapply linked_trans; [apply cycle_linked|].
  eapply linked_trans; [apply linked_silent, silent_sleep|apply IH].
Qed.

(** A list of announcements in which no stage names a message twice has
    no announcement twice. *)
Lemma steps_nodup (ss : list (string * stage)) :
  (forall s, NoDup (map fst (List.filter (fun p => bool_decide (snd p = s)) ss))) ->
  NoDup ss.
Proof.
  induction ss as [|[i s] ss IH]; intros N; [constructor|].
  constructor.
  - intros Hin. specialize (N s). cbn [List.filter snd] in N.
    rewrite bool_decide_eq_true_2 in N by reflexivity.
    cbn [map fst] in N. apply NoDup_cons in N as [N _]. apply N.
    apply list_elem_of_In. apply list_elem_of_In in Hin.
    apply (in_map fst) with (x := (i, s)). apply List.filter_In. split; [exact Hin|].
    now apply bool_decide_eq_true_2.
  - apply IH. intros s'. specialize (N s'). cbn [List.filter snd] in N.
    destruct (bool_decide (s = s')); [|exact N].
    cbn [map] in N. now apply NoDup_cons in N as [_ N].
Qed.

Lemma filter_nodup {A : Type} (f : A -> bool) (l : list A) :
  NoDup l -> NoDup (List.filter f l).
Proof. intros N. eapply sublist_NoDup; [exact N|]. apply filter_sublist. Qed.

Lemma nodup_count {A : Type} `{EqDecision A} (a : A) (l : list A) :
  NoDup l -> (length (List.filter (fun x => bool_decide (x = a)) l) <= 1)%nat.
Proof.
  induction l as [|b l IH]; intros N; [simpl; lia|].
  apply NoDup_cons in N as [Nb N]. cbn [List.filter].
  destruct (bool_decide (b = a)) eqn:B; [|now apply IH].
  apply bool_decide_eq_true in B. subst b.
  assert (E : List.filter (fun x => bool_decide (x = a)) l = []).
  { clear IH N. induction l as [|c l IH]; [reflexivity|].
    cbn [List.filter]. destruct (bool_decide (c = a)) eqn:C.
    - apply bool_decide_eq_true in C. subst c. exfalso. apply Nb. now left.
    - apply IH. intros Hin. apply Nb. now right. }
  rewrite E. simpl. lia.
Qed.

End Attribution.

Section DedupClaim.
Context {W : Type} `{Services W}.

(** C3. Against a mailbox that keeps the internal date of each message,
    reports no negative date or time and names a message at most once in
    a listing, after any number of cycles of a run:
    [search_new_emails] returns no message whose id is in the processed
    set; no step (fetch, classify, aggregate, generate, draft) was
    announced twice for an id, and every id with an announced step is in
    the processed set; the candidates of the next cycle, in bootstrap and
    in live mode alike, are distinct and not in the processed set; and
    every call made to the agent during the run was made under an
    announcement of its own for classifying, generating or drafting, so
    that the agent was called at most once for each stage of each
    message, for drafting in particular. *)
Theorem dedup_idempotence (date_of : string -> Z) (w : W) (interval : Z)
    (cycles : nat) :
  (forall i w d w' z,
     messages_get i (Metadata ["From"; "Subject"; "Date"]) w = (Ok d, w') ->
     py_int (internalDate d) = Ok z -> z = date_of i) ->
  (forall i, 0 <= date_of i) ->
  (forall w, 0 <= fst (time_ms w)) ->
  (forall q n w ms w', messages_list q n w = (Ok ms, w') -> NoDup ms) ->
  let st := snd (run_continuous interval cycles (init w)) in
  (forall mx (st0 : agent W),
     Forall (fun x => id x ∉ processed_emails st0) (fst (search_new_emails mx st0))) /\
  (forall s, NoDup (step_ids s (trace st))) /\
  (forall s i, i ∈ step_ids s (trace st) -> i ∈ processed_emails st) /\
  (forall emails, fst (select_new_emails st) = Some emails ->
     NoDup (map id emails) /\
     Forall (fun x => id x ∉ processed_emails st) emails) /\
  attributed None (trace st) = map Some (announced_calls (trace st)) /\
  NoDup (announced_calls (trace st)) /\
  (forall i s,
     (length (List.filter (fun c => bool_decide (c = Some (i, s)))
                (attributed None (trace st))) <= 1)%nat).
Proof.
  intros Hs Hn Hc Hl st.
  split.
  { intros mx st0. destruct (search_new_emails_spec mx st0) as (_ & N & _). exact N. }
  assert (Inv : tracker_inv date_of st).
  { apply (run_continuous_inv date_of Hs Hn Hc Hl). apply init_inv. }
  pose proof Inv as (I1 & I2 & _). split; [exact I1|]. split; [exact I2|].
  split.
  { intros emails E.
    destruct (select_fresh date_of Hs Hl st emails Inv E) as (ND & NP & _).
    now split. }
  assert (A : attributed None (trace st) = map Some (announced_calls (trace st))).
  { destruct (run_continuous_linked interval cycles (init w)) as (evs & T & A).
    fold st in T. cbn [init trace app] in T. rewrite T. apply A. }
  assert (N : NoDup (announced_calls (trace st))).
  { apply filter_nodup, steps_nodup, I1. }
  split; [exact A|]. split; [exact N|].
  intros i s. apply nodup_count. rewrite A.
  apply (NoDup_fmap_2 Some). exact N.
Qed.

End DedupClaim.

(** Three cycles on the example inbox: no message is classified or
    drafted twice, and the agent is called once to draft the reply to
    the newest message. *)
Lemma dedup_idempotence_witness :
  let st := snd (@run_continuous nat (scripted steady) 60 3 (init 0%nat)) in
  NoDup (step_ids Classify (trace st)) /\ NoDup (step_ids Draft (trace st)) /\
  (length (List.filter (fun c => bool_decide (c = Some ("m500", Draft)))
             (attributed None (trace st))) <= 1)%nat.
Proof.
  destruct (@dedup_idempotence nat (scripted steady) example_date 0%nat 60 3
              steady_dates_stable example_date_nonneg steady_clock_nonneg
              steady_listing_nodup) as (_ & N & _ & _ & _ & _ & C).
  split; [apply N|]. split; [apply N|apply C].
Defined.
